(** * node-usbmux: a shallow embedding of [lib/usbmux.ts]

    The development follows the source file top to bottom:

    - [JsNum]    : the 32-bit integer operators of JavaScript that
                   [byteSwap16] uses, with their wrap-around written out;
    - [Buf]      : the operations of Node's [Buffer] the codec calls
                   ([alloc], [writeUInt32LE], [readUInt32LE], [subarray],
                   [concat]);
    - [JsObject] : a plain object used as a map, with the key order of
                   [Object.keys];
    - the protocol codec ([pack], [byteSwap16], [connect], [makeParser]);
    - [UsbmuxdError], [createListener], [connect], [Relay], [findDevice].

    Numbers are integers ([Z]); a thrown exception is an explicit result.
    The [plist] package and the text conversions of [Buffer] are outside the
    repository: they are the operations of the class [Codec].  Emitting an
    event is an output of the model: the emitter has the listeners Node
    asks for (one for "error" among them) and they return normally.  An
    object used as a map is the list of its own properties; what it
    inherits from its prototype is not part of the model. *)

From Stdlib Require Import ZArith List Bool Lia String Ascii.
From Stdlib.Strings Require Import Byte.
From Stdlib Require Import DecimalString Permutation.
Import ListNotations.

Local Open Scope Z_scope.
Set Warnings "-register-all".

(* ------------------------------------------------------------------ *)
(** ** JavaScript numbers: the int32 operators *)

Module JsNum.

(** [ToInt32]: reduce modulo 2^32 into the signed range. *)
Definition to_int32 (z : Z) : Z :=
  (z + 2147483648) mod 4294967296 - 2147483648.

(** [a & b] *)
Definition band (a b : Z) : Z := to_int32 (Z.land (to_int32 a) (to_int32 b)).

(** [a | b] *)
Definition bor (a b : Z) : Z := to_int32 (Z.lor (to_int32 a) (to_int32 b)).

(** [a << n] : the shift count is taken modulo 32. *)
Definition shl (a n : Z) : Z := to_int32 (Z.shiftl (to_int32 a) (n mod 32)).

(** [a >> n] : sign-propagating right shift. *)
Definition sar (a n : Z) : Z := to_int32 (Z.shiftr (to_int32 a) (n mod 32)).

(** Truthiness of a number: [0] is falsy (there is no NaN among integers). *)
Definition truthy (z : Z) : bool := negb (z =? 0).

(** [x || d] where [x] may be [undefined]. *)
Definition or_default (x : option Z) (d : Z) : Z :=
  match x with
  | Some v => if truthy v then v else d
  | None => d
  end.

End JsNum.

(** String concatenation, the [+] of JavaScript on strings. *)
Infix "+++" := String.append (at level 60, right associativity).

(** Truthiness of a string: only the empty string is falsy. *)
Definition str_truthy (s : string) : bool :=
  match s with
  | EmptyString => false
  | String _ _ => true
  end.

(** Truthiness of a property that may be [undefined]. *)
Definition given (o : option string) : bool :=
  match o with
  | Some s => str_truthy s
  | None => false
  end.

(** Decimal rendering of an integer, as [String(n)] does. *)
Definition string_of_Z (z : Z) : string := NilZero.string_of_int (Z.to_int z).

(* ------------------------------------------------------------------ *)
(** ** Node's [Buffer] *)

Module Buf.

Definition Buffer := list byte.

Definition length (b : Buffer) : Z := Z.of_nat (List.length b).

(** [Buffer.alloc(n)]: [n] zero bytes. *)
Definition alloc (n : nat) : Buffer := repeat x00 n.

(** [buf.fill(v)] *)
Definition fill (b : Buffer) (v : byte) : Buffer := map (fun _ => v) b.

Definition byte_of_Z (z : Z) : byte :=
  match Byte.of_N (Z.to_N (z mod 256)) with
  | Some b => b
  | None => x00
  end.

Definition Z_of_byte (b : byte) : Z := Z.of_N (Byte.to_N b).

(** [buf.writeUInt32LE(value, offset)].  [None] is the RangeError Node
    throws when [value] is not an unsigned 32-bit integer or the four bytes
    do not fit at [offset]. *)
Definition writeUInt32LE (b : Buffer) (value offset : Z) : option Buffer :=
  if (0 <=? value) && (value <=? 4294967295)
     && (0 <=? offset) && (offset + 4 <=? length b)
  then Some (firstn (Z.to_nat offset) b
             ++ [byte_of_Z value; byte_of_Z (value / 256);
                 byte_of_Z (value / 65536); byte_of_Z (value / 16777216)]
             ++ skipn (Z.to_nat offset + 4) b)
  else None.

(** [buf.readUInt32LE(offset)].  [None] is the RangeError Node throws when
    fewer than four bytes are available at [offset]. *)
Definition readUInt32LE (b : Buffer) (offset : Z) : option Z :=
  if (0 <=? offset) && (offset + 4 <=? length b)
  then match skipn (Z.to_nat offset) b with
       | b0 :: b1 :: b2 :: b3 :: _ =>
           Some (Z_of_byte b0 + 256 * Z_of_byte b1
                 + 65536 * Z_of_byte b2 + 16777216 * Z_of_byte b3)
       | _ => None
       end
  else None.

(** A relative index of [subarray]: negative values count from the end,
    and the result is clamped to the buffer. *)
Definition clamp_index (len i : Z) : Z :=
  if i <? 0 then Z.max (len + i) 0 else Z.min i len.

(** [buf.subarray(start, end)] *)
Definition subarray (b : Buffer) (start end_ : Z) : Buffer :=
  let from := clamp_index (length b) start in
  let to := clamp_index (length b) end_ in
  firstn (Z.to_nat (Z.max (to - from) 0)) (skipn (Z.to_nat from) b).

(** [buf.subarray(start)]: the end defaults to the length. *)
Definition subarray_from (b : Buffer) (start : Z) : Buffer :=
  subarray b start (length b).

(** [Buffer.concat(list)] *)
Definition concat (l : list Buffer) : Buffer := List.concat l.

End Buf.

Abbreviation Buffer := Buf.Buffer.

(* ------------------------------------------------------------------ *)
(** ** A plain object used as a map *)

Module JsObject.

(** A property name is an array index when it is the canonical decimal
    form of an integer below 2^32 - 1 (ECMA-262, 6.1.7). *)
Definition digit_of (c : ascii) : option N :=
  let n := N_of_ascii c in
  if ((48 <=? n) && (n <=? 57))%N then Some (n - 48)%N else None.

Fixpoint parse_digits (s : string) (acc : N) : option N :=
  match s with
  | EmptyString => Some acc
  | String c r =>
      match digit_of c with
      | Some d => parse_digits r (10 * acc + d)%N
      | None => None
      end
  end.

Definition array_index (s : string) : option N :=
  match s with
  | EmptyString => None
  | String c r =>
      if Ascii.eqb c "0"%char && str_truthy r then None
      else match parse_digits s 0%N with
           | Some n => if (n <=? 4294967294)%N then Some n else None
           | None => None
           end
  end.

Definition is_index (s : string) : bool :=
  match array_index s with
  | Some _ => true
  | None => false
  end.

Section Obj.
Variable V : Type.

(** The own properties, in the order they were created. *)
Definition obj := list (string * V).

(** [o[k]], own properties only; [None] is [undefined]. *)
Fixpoint get (k : string) (o : obj) : option V :=
  match o with
  | [] => None
  | (k', v) :: r => if String.eqb k k' then Some v else get k r
  end.

(** [o[k] = v]: an existing property keeps its place, a new one goes last. *)
Fixpoint set (k : string) (v : V) (o : obj) : obj :=
  match o with
  | [] => [(k, v)]
  | (k', v') :: r =>
      if String.eqb k k' then (k, v) :: r else (k', v') :: set k v r
  end.

(** [delete o[k]] *)
Definition delete (k : string) (o : obj) : obj :=
  filter (fun kv => negb (String.eqb k (fst kv))) o.

Fixpoint insert_index (e : N * string) (l : list (N * string))
  : list (N * string) :=
  match l with
  | [] => [e]
  | x :: r => if (fst e <=? fst x)%N then e :: l else x :: insert_index e r
  end.

(** The array-index keys with their numeric value, in ascending order. *)
Fixpoint index_keys (o : obj) : list (N * string) :=
  match o with
  | [] => []
  | (k, _) :: r =>
      match array_index k with
      | Some n => insert_index (n, k) (index_keys r)
      | None => index_keys r
      end
  end.

(** The other keys, in creation order. *)
Definition name_keys (o : obj) : list string :=
  filter (fun k => negb (is_index k)) (map fst o).

(** [Object.keys(o)]: array indices in ascending numeric order first, then
    the other names in creation order (ECMA-262, OrdinaryOwnPropertyKeys). *)
Definition keys (o : obj) : list string :=
  map snd (index_keys o) ++ name_keys o.

End Obj.

Arguments get {V} k o.
Arguments set {V} k v o.
Arguments delete {V} k o.
Arguments index_keys {V} o.
Arguments name_keys {V} o.
Arguments keys {V} o.

End JsObject.

(* ------------------------------------------------------------------ *)
(** ** Data model *)

(** [type Device] *)
Record Device := {
  ConnectionType : string;
  DeviceID : Z;
  LocationID : Z;
  ProductID : Z;
  SerialNumber : string
}.

(** [export const devices: Record<string, Device> = {}] *)
Definition Registry := JsObject.obj Device.

Definition devices0 : Registry := [].

(** [type UsbMuxPlist]: the messages the daemon sends, by [MessageType]. *)
Inductive UsbMuxPlist :=
| Result (Number : Z)
| Attached (Number : Z) (Properties : Device)
| Detached (Number : Z) (DeviceID : Z).

(** [msg.Number], a field of every variant. *)
Definition msg_Number (m : UsbMuxPlist) : Z :=
  match m with
  | Result n => n
  | Attached n _ => n
  | Detached n _ => n
  end.

(** [plist.PlistValue], as far as the requests of this file need it. *)
Inductive PlistValue :=
| PString (s : string)
| PInteger (z : Z)
| PDict (fields : list (string * PlistValue)).

(** [dict[key]] on a [PDict]. *)
Definition field (key : string) (v : PlistValue) : option PlistValue :=
  match v with
  | PDict fields =>
      option_map snd
        (find (fun kv => String.eqb key (fst kv)) fields)
  | _ => None
  end.

(** The external collaborators of the codec: the [plist] package and the
    text conversions of [Buffer].  [plist_parse] answers [None] when
    [plist.parse] throws. *)
Class Codec := {
  plist_build : PlistValue -> string;
  plist_parse : string -> option UsbMuxPlist;
  Buffer_from : string -> Buffer;
  Buffer_toString : Buffer -> string
}.

(** What a handler can throw. *)
Inductive Exn :=
| RangeError      (* a [Buffer] access out of range *)
| PlistError      (* [plist.parse] rejected the text *)
| StackOverflow   (* the recursion of [parse] exceeded the call stack *)
| TypeError.      (* a property of [undefined] was read *)

(** A call either returns or throws; the state reached is kept in both. *)
Inductive Outcome (A : Type) :=
| Returned (a : A)
| Threw (e : Exn) (a : A).

Arguments Returned {A} a.
Arguments Threw {A} e a.

(** Sequencing of fallible [Buffer] writes. *)
Notation "x <- c1 ;; c2" :=
  (match c1 with Some x => c2 | None => None end)
  (at level 61, c1 at next level, right associativity).

(* ------------------------------------------------------------------ *)
(** ** The protocol codec: [export const protocol] *)

Module protocol.

(** Swap endianness of a 16bit value:
    [((val & 0xff) << 8) | ((val >> 8) & 0xff)] *)
Definition byteSwap16 (val : Z) : Z :=
  JsNum.bor (JsNum.shl (JsNum.band val 255) 8)
            (JsNum.band (JsNum.sar val 8) 255).

(** The state the closure of [makeParser] keeps between calls: the
    remaining length and the text so far.  [len = None] is the
    uninitialised variable; [msg] is never read before it is set. *)
Record ParserState := {
  len : option Z;
  msg : string
}.

(** [!len] *)
Definition len_falsy (st : ParserState) : bool :=
  match len st with
  | Some l => negb (JsNum.truthy l)
  | None => true
  end.

Definition len_value (st : ParserState) : Z :=
  match len st with
  | Some l => l
  | None => 0
  end.

Section WithCodec.
Context {codec : Codec}.

(** Pack a request object into a buffer for usbmuxd. *)
Definition pack (payload_obj : PlistValue) : option Buffer :=
  let payload_plist := plist_build payload_obj in
  let payload_buf := Buffer_from payload_plist in
  let header_len := Buf.length payload_buf + 16 in
  let header_buf := Buf.fill (Buf.alloc 16) x00 in
  h1 <- Buf.writeUInt32LE header_buf header_len 0 ;;
  h2 <- Buf.writeUInt32LE h1 1 4 ;;
  h3 <- Buf.writeUInt32LE h2 8 8 ;;
  h4 <- Buf.writeUInt32LE h3 1 12 ;;
  Some (Buf.concat [h4; payload_buf]).


(** The object of a Connect request. *)
Definition connect_payload (deviceID port : Z) : PlistValue :=
  PDict [("MessageType", PString "Connect");
         ("ClientVersionString", PString "node-usbmux");
         ("ProgName", PString "node-usbmux");
         ("DeviceID", PInteger deviceID);
         ("PortNumber", PInteger (byteSwap16 port))]%string.

(** Connect request.
    Note: PortNumber must be network-endian, so it gets byte swapped here *)
Definition connect (deviceID port : Z) : option Buffer :=
  pack (connect_payload deviceID port).

Section Parser.
Context {W : Type}.
Variable onComplete : UsbMuxPlist -> W -> W.

(** [makeParser(onComplete)]: the closure starts with both variables
    unset. *)
Definition makeParser : ParserState := {| len := None; msg := EmptyString |}.

(** The function [parse] that [makeParser] returns.  [stack] is the number
    of frames the call stack still has room for: [parse] calls itself on
    the rest of the data.  [w] is whatever [onComplete] acts on. *)
Fixpoint parse (stack : nat) (st : ParserState) (w : W) (data : Buffer)
  : Outcome (ParserState * W) :=
  match stack with
  | O => Threw StackOverflow (st, w)
  | S stack' =>
      let fresh := len_falsy st in
      (* if (!len) { len = data.readUInt32LE(0) - 16; msg = "";
                     data = data.subarray(16); ... } *)
      match (if fresh
             then match Buf.readUInt32LE data 0 with
                  | Some total =>
                      Some ({| len := Some (total - 16); msg := EmptyString |},
                            Buf.subarray_from data 16)
                  | None => None
                  end
             else Some (st, data)) with
      | None => Threw RangeError (st, w)
      | Some (st1, data1) =>
          (* if (!data.length) return;  -- inside the [if (!len)] block *)
          if fresh && (Buf.length data1 =? 0) then Returned (st1, w)
          else
            let body := Buf.subarray data1 0 (len_value st1) in
            let msg' := msg st1 +++ Buffer_toString body in
            let len' := len_value st1 - Buf.length body in
            let st2 := {| len := Some len'; msg := msg' |} in
            (* if (len === 0) onComplete(plist.parse(msg)) *)
            match (if len' =? 0
                   then option_map (fun m => onComplete m w) (plist_parse msg')
                   else Some w) with
            | None => Threw PlistError (st2, w)
            | Some w' =>
                let data2 := Buf.subarray_from data1 (Buf.length body) in
                (* if (data.length) parse(data) *)
                if Buf.length data2 =? 0 then Returned (st2, w')
                else parse stack' st2 w' data2
            end
      end
  end.

(** A sequence of "data" events, each handled by [parse]; an exception
    escapes the handler and nothing after it is parsed. *)
Fixpoint feed (stack : nat) (st : ParserState) (w : W) (chunks : list Buffer)
  : Outcome (ParserState * W) :=
  match chunks with
  | [] => Returned (st, w)
  | c :: cs =>
      match parse stack st w c with
      | Returned (st', w') => feed stack st' w' cs
      | Threw e x => Threw e x
      end
  end.

End Parser.

End WithCodec.

End protocol.

(** The callback that records what it is called with, in order. *)
Definition record_msg (m : UsbMuxPlist) (log : list UsbMuxPlist)
  : list UsbMuxPlist := log ++ [m].

(* ------------------------------------------------------------------ *)
(** ** Errors, sockets and the trace of effects *)

Inductive ErrorClass := PlainError | UsbmuxdErrorClass.

(** An [Error] object: its class, its message and, on a [UsbmuxdError]
    built with a truthy number, the field [number]. *)
Record JsError := {
  err_class : ErrorClass;
  message : string;
  number : option Z
}.

(** [new Error(message)] *)
Definition Error (m : string) : JsError :=
  {| err_class := PlainError; message := m; number := None |}.

(** [new UsbmuxdError(message, number)] *)
Definition UsbmuxdError (m : string) (n : Z) : JsError :=
  let m1 := if JsNum.truthy n then m +++ ", Err #" +++ string_of_Z n else m in
  let m2 := if n =? 2 then m1 +++ ": Device isn't connected" else m1 in
  let m3 := if n =? 3 then m2 +++ ": Port isn't available or open" else m2 in
  let m4 := if n =? 5 then m3 +++ ": Malformed request" else m3 in
  {| err_class := UsbmuxdErrorClass;
     message := m4;
     number := if JsNum.truthy n then Some n else None |}.

(** A [net.Socket], named by the order of its creation. *)
Definition Socket := nat.

(** What an emitted event carries. *)
Inductive EventData :=
| DUdid (udid : string)
| DError (e : JsError)
| DNone.

(** How a promise is settled. *)
Inductive Settlement :=
| ResolvedSocket (s : Socket)
| ResolvedNumber (n : Z)
| Rejected (e : JsError)
| RejectedExn (e : Exn).

(** The observable steps of a handler, in the order they happen.  An
    emission carries the registry as the listeners see it when they run. *)
Inductive Effect :=
| Emit (event : string) (data : EventData) (seen : Registry)
| SocketEnd (s : Socket)
| SocketWrite (s : Socket) (b : Buffer)
| RemoveDataListener (s : Socket)
| Settle (r : Settlement)
| SetTimeout (delay : Z)
| ClearTimeout
| TunnelConnect (deviceID devicePort : Z) (local : Socket).

Definition Trace := list Effect.

(** A promise keeps its first settlement. *)
Fixpoint settled (t : Trace) : option Settlement :=
  match t with
  | [] => None
  | Settle r :: _ => Some r
  | _ :: t' => settled t'
  end.

Definition is_end (s : Socket) (e : Effect) : bool :=
  match e with
  | SocketEnd s' => Nat.eqb s s'
  | _ => false
  end.

(** Whether [s.end()] was called. *)
Definition ended (s : Socket) (t : Trace) : bool := existsb (is_end s) t.

(* ------------------------------------------------------------------ *)
(** ** [createListener] *)

(** What the message handler of a listener acts on: the process-wide
    registry and the trace of the connection. *)
Record ListenerWorld := {
  devices : Registry;
  ltrace : Trace
}.

Definition l_emit (event : string) (data : EventData) (w : ListenerWorld)
  : ListenerWorld :=
  {| devices := devices w;
     ltrace := ltrace w ++ [Emit event data (devices w)] |}.

Definition l_end (conn : Socket) (w : ListenerWorld) : ListenerWorld :=
  {| devices := devices w; ltrace := ltrace w ++ [SocketEnd conn] |}.

(** The body of the [forEach] over [Object.keys(devices)].  Every key of
    the snapshot is still present when it is visited, since keys are
    distinct and only the visited key is deleted ([lookups_defined] below
    holds of every registry), so [devices[key]] is never [undefined]. *)
Definition detach_key (id : Z) (w : ListenerWorld) (key : string)
  : ListenerWorld :=
  match JsObject.get key (devices w) with
  | Some d =>
      if DeviceID d =? id
      then let w' := l_emit "detached" (DUdid (SerialNumber d)) w in
           {| devices := JsObject.delete key (devices w');
              ltrace := ltrace w' |}
      else w
  | None => w
  end.

(** Whether every [devices[key]] of the loop finds its key. *)
Fixpoint lookups_defined (id : Z) (ks : list string) (w : ListenerWorld)
  : bool :=
  match ks with
  | [] => true
  | k :: ks' =>
      match JsObject.get k (devices w) with
      | Some _ => lookups_defined id ks' (detach_key id w k)
      | None => false
      end
  end.

(** [if (msg.MessageType === "Result" && msg.Number !== 0)] *)
Definition on_result (conn : Socket) (m : UsbMuxPlist) (w : ListenerWorld)
  : ListenerWorld :=
  match m with
  | Result n =>
      if n =? 0 then w
      else l_end conn
             (l_emit "error" (DError (UsbmuxdError "Listen failed" n)) w)
  | _ => w
  end.

(** [if (msg.MessageType === "Attached")] *)
Definition on_attached (m : UsbMuxPlist) (w : ListenerWorld)
  : ListenerWorld :=
  match m with
  | Attached _ props =>
      l_emit "attached" (DUdid (SerialNumber props))
        {| devices := JsObject.set (SerialNumber props) props (devices w);
           ltrace := ltrace w |}
  | _ => w
  end.

(** [if (msg.MessageType === "Detached")] *)
Definition on_detached (m : UsbMuxPlist) (w : ListenerWorld)
  : ListenerWorld :=
  match m with
  | Detached _ id =>
      fold_left (detach_key id) (JsObject.keys (devices w)) w
  | _ => w
  end.

(** [onMsgComplete] of [createListener]: the three tests in sequence. *)
Definition listener_onMsgComplete (conn : Socket) (m : UsbMuxPlist)
  (w : ListenerWorld) : ListenerWorld :=
  on_detached m (on_attached m (on_result conn m w)).

(* ------------------------------------------------------------------ *)
(** ** [connect]: the tunnel connector *)

(** What the message handler of [connect] acts on: whether [parse] is
    still registered for "data", and the trace. *)
Record ConnWorld := {
  parsing : bool;
  ctrace : Trace
}.

(** [onMsgComplete] of [connect]. *)
Definition connect_onMsgComplete (conn : Socket) (m : UsbMuxPlist)
  (w : ConnWorld) : ConnWorld :=
  match m with
  | Result 0 =>
      (* conn.removeListener("data", parse); resolve(conn); return *)
      {| parsing := false;
         ctrace := ctrace w ++ [RemoveDataListener conn;
                                Settle (ResolvedSocket conn)] |}
  | _ =>
      (* reject(new UsbmuxdError("Tunnel failed", msg.Number)); conn.end() *)
      {| parsing := parsing w;
         ctrace := ctrace w
                   ++ [Settle (Rejected
                                 (UsbmuxdError "Tunnel failed" (msg_Number m)));
                       SocketEnd conn] |}
  end.

(** A tunnel being negotiated on the connection [conn]. *)
Record Tunnel := {
  conn : Socket;
  request : option Buffer;
  pstate : protocol.ParserState;
  world : ConnWorld
}.

(** What happens to the connection afterwards. *)
Inductive ConnEvent :=
| NextTick                 (* the callback of [process.nextTick] runs *)
| Data (chunk : Buffer).   (* a "data" event *)

Section Connect.
Context {codec : Codec}.

(** [connect(deviceID, devicePort)] up to the return of the promise;
    [fresh] is the socket [net.connect] creates.  When building the
    request throws, the executor rejects the promise. *)
Definition connect (fresh : Socket) (deviceID devicePort : Z) : Tunnel :=
  let req := protocol.connect deviceID devicePort in
  {| conn := fresh;
     request := req;
     pstate := protocol.makeParser;
     world := match req with
              | Some _ => {| parsing := true; ctrace := [] |}
              | None =>
                  {| parsing := false;
                     ctrace := [Settle (RejectedExn RangeError)] |}
              end |}.

Definition tunnel_step (stack : nat) (t : Tunnel) (e : ConnEvent)
  : Outcome Tunnel :=
  match e with
  | NextTick =>
      match request t with
      | Some req =>
          Returned {| conn := conn t; request := request t;
                      pstate := pstate t;
                      world := {| parsing := parsing (world t);
                                  ctrace := ctrace (world t)
                                            ++ [SocketWrite (conn t) req] |} |}
      | None => Returned t
      end
  | Data chunk =>
      if parsing (world t)
      then match protocol.parse (connect_onMsgComplete (conn t)) stack
                   (pstate t) (world t) chunk with
           | Returned (st, w) =>
               Returned {| conn := conn t; request := request t;
                           pstate := st; world := w |}
           | Threw e (st, w) =>
               Threw e {| conn := conn t; request := request t;
                          pstate := st; world := w |}
           end
      else Returned t
  end.

(** The events of a connection, in order; an exception ends the run. *)
Fixpoint tunnel_run (stack : nat) (t : Tunnel) (es : list ConnEvent)
  : Outcome Tunnel :=
  match es with
  | [] => Returned t
  | e :: es' =>
      match tunnel_step stack t e with
      | Returned t' => tunnel_run stack t' es'
      | Threw x t' => Threw x t'
      end
  end.

End Connect.

(* ------------------------------------------------------------------ *)
(** ** [Relay] *)

(** [type RelayOpts] *)
Record RelayOpts := {
  timeout : option Z;
  udid : option string
}.

(** [opts || {}] *)
Definition opts_or_empty (opts : option RelayOpts) : RelayOpts :=
  match opts with
  | Some o => o
  | None => {| timeout := None; udid := None |}
  end.

Record Relay := {
  _devicePort : Z;
  _relayPort : Z;
  _udid : option string
}.

(** [this._emit(event, data)] *)
Definition _emit (event : string) (data : EventData) (devs : Registry)
  : Trace := [Emit event data devs].

(** [_startListener(timeout)]: the watchdog is armed with
    [timeout || 1000]. *)
Definition _startListener (timeout_ : Z) : Trace :=
  [SetTimeout (JsNum.or_default (Some timeout_) 1000)].

(** [new Relay(devicePort, relayPort, opts)]: the object and the timer it
    arms. *)
Definition Relay_new (devicePort relayPort : Z) (opts : option RelayOpts)
  : Relay * Trace :=
  let o := opts_or_empty opts in
  ({| _devicePort := devicePort; _relayPort := relayPort; _udid := udid o |},
   _startListener (JsNum.or_default (timeout o) 1000)).

(** [devices[udid]] is truthy. *)
Definition has_device (devs : Registry) (u : string) : bool :=
  match JsObject.get u devs with
  | Some _ => true
  | None => false
  end.

Definition pinned_name (r : Relay) : string :=
  match _udid r with
  | Some s => s
  | None => EmptyString
  end.

(** The callback of the watchdog timer. *)
Definition watchdog (r : Relay) (devs : Registry) : Trace :=
  (if negb (given (_udid r)) && (List.length (JsObject.keys devs) =? 0)%nat
   then _emit "warning" (DError (Error "No devices connected")) devs
   else [])
  ++ (if given (_udid r) && negb (has_device devs (pinned_name r))
      then _emit "warning" (DError (Error "Requested device not connected")) devs
      else []).

(** [readyCheck(udid)], the first listener of "attached". *)
Definition readyCheck (r : Relay) (devs : Registry) (u : string) : Trace :=
  if given (_udid r) && negb (String.eqb (pinned_name r) u) then []
  else _emit "ready" (DUdid u) devs ++ [ClearTimeout].




(* ------------------------------------------------------------------ *)
(** ** [findDevice] *)

Inductive TimerState := Armed | Fired | Cleared.

Record Finder := {
  f_opts : RelayOpts;
  f_listener : Socket;
  f_timer : TimerState;
  f_trace : Trace
}.

(** [findDevice(opts)] up to the return of the promise; [listener] is the
    socket of the listener it creates. *)
Definition findDevice (listener : Socket) (opts : option RelayOpts)
  : Finder :=
  let o := opts_or_empty opts in
  {| f_opts := o;
     f_listener := listener;
     f_timer := Armed;
     f_trace := [SetTimeout (JsNum.or_default (timeout o) 1000)] |}.

Inductive FinderEvent :=
| TimerExpires
| AttachedEvent (u : string) (seen : Registry).

(** [opts.udid && opts.udid !== udid]: the notification is not the one
    waited for. *)
Definition passes_by (o : RelayOpts) (u : string) : bool :=
  match udid o with
  | Some s => str_truthy s && negb (String.eqb s u)
  | None => false
  end.

(** The events that leave [findDevice] waiting: the notifications for
    other devices than the pinned one. *)
Definition ignored (o : RelayOpts) (e : FinderEvent) : bool :=
  match e with
  | AttachedEvent u _ => passes_by o u
  | TimerExpires => false
  end.

Definition finder_step (f : Finder) (e : FinderEvent) : Outcome Finder :=
  match e with
  | TimerExpires =>
      match f_timer f with
      | Armed =>
          (* listener.end(); opts.udid ? reject(...) : reject(...) *)
          Returned
            {| f_opts := f_opts f; f_listener := f_listener f;
               f_timer := Fired;
               f_trace :=
                 f_trace f
                 ++ [SocketEnd (f_listener f);
                     Settle (Rejected
                       (Error (if given (udid (f_opts f))
                               then "Requested device not connected"
                               else "No devices connected")))] |}
      | _ => Returned f
      end
  | AttachedEvent u seen =>
      if passes_by (f_opts f) u then Returned f
      else
        (* listener.end(); clearTimeout(timer);
           resolve(devices[udid].DeviceID) *)
        let t := f_trace f ++ [SocketEnd (f_listener f); ClearTimeout] in
        let cleared := match f_timer f with Armed => Cleared | s => s end in
        match JsObject.get u seen with
        | Some d =>
            Returned
              {| f_opts := f_opts f; f_listener := f_listener f;
                 f_timer := cleared;
                 f_trace := t ++ [Settle (ResolvedNumber (DeviceID d))] |}
        | None =>
            Threw TypeError
              {| f_opts := f_opts f; f_listener := f_listener f;
                 f_timer := cleared; f_trace := t |}
        end
  end.

Fixpoint finder_run (f : Finder) (es : list FinderEvent) : Outcome Finder :=
  match es with
  | [] => Returned f
  | e :: es' =>
      match finder_step f e with
      | Returned f' => finder_run f' es'
      | Threw x f' => Threw x f'
      end
  end.

(* ------------------------------------------------------------------ *)
(** ** A small codec to run the model on examples

    Dictionaries are written [key=value;...], text is one byte per
    character, and only the flat messages are read back. *)

Module TestCodec.

Fixpoint build (v : PlistValue) : string :=
  match v with
  | PString s => s
  | PInteger z => string_of_Z z
  | PDict fs =>
      (fix go (l : list (string * PlistValue)) : string :=
         match l with
         | [] => EmptyString
         | (k, x) :: r => k +++ "=" +++ build x +++ ";" +++ go r
         end) fs
  end.

(** The text before the first [c], and what follows it. *)
Fixpoint take_until (c : ascii) (s : string) : string * option string :=
  match s with
  | EmptyString => (EmptyString, None)
  | String a r =>
      if Ascii.eqb a c then (EmptyString, Some r)
      else let (p, q) := take_until c r in (String a p, q)
  end.

Fixpoint fields_of (fuel : nat) (s : string) : list (string * string) :=
  match fuel with
  | O => []
  | S n =>
      match take_until "="%char s with
      | (k, Some r) =>
          match take_until ";"%char r with
          | (v, Some r') => (k, v) :: fields_of n r'
          | _ => []
          end
      | _ => []
      end
  end.

Definition lookup (k : string) (fs : list (string * string)) : option string :=
  option_map snd (find (fun kv => String.eqb k (fst kv)) fs).

Definition number_of (k : string) (fs : list (string * string)) : option Z :=
  match lookup k fs with
  | Some v => option_map Z.of_int (NilZero.int_of_string v)
  | None => None
  end.

Definition parse (s : string) : option UsbMuxPlist :=
  let fs := fields_of (String.length s) s in
  match lookup "MessageType" fs with
  | Some "Result"%string => option_map Result (number_of "Number" fs)
  | Some "Detached"%string =>
      match number_of "Number" fs, number_of "DeviceID" fs with
      | Some n, Some d => Some (Detached n d)
      | _, _ => None
      end
  | _ => None
  end.

#[export] Instance codec : Codec := {|
  plist_build := build;
  plist_parse := parse;
  Buffer_from := list_byte_of_string;
  Buffer_toString := string_of_list_byte
|}.

(** A [Result] message as the daemon sends it. *)
Definition result_obj (n : Z) : PlistValue :=
  PDict [("MessageType", PString "Result"); ("Number", PInteger n)]%string.

Definition frame_of (v : PlistValue) : Buffer :=
  match protocol.pack v with
  | Some f => f
  | None => []
  end.

(** A buffer cut into chunks of one byte. *)
Definition one_byte_chunks (b : Buffer) : list Buffer := map (fun x => [x]) b.

Definition usb (id : Z) (serial : string) : Device :=
  {| ConnectionType := "USB"; DeviceID := id; LocationID := 0;
     ProductID := 4776; SerialNumber := serial |}.

End TestCodec.

(* ------------------------------------------------------------------ *)
(** ** Vocabulary of the statements *)

(** [frame] is a 16-byte header followed by [payload], and the header
    announces the total length, whatever follows the frame. *)
Definition framed (frame payload : Buffer) : Prop :=
  exists hdr,
    frame = hdr ++ payload
    /\ List.length hdr = 16%nat
    /\ forall rest,
         Buf.readUInt32LE (hdr ++ rest) 0 = Some (Buf.length payload + 16).

(** The decoded equivalent of a frame: its payload, as text, through
    [plist.parse]. *)
Definition decode_frame {codec : Codec} (frame : Buffer)
  : option UsbMuxPlist :=
  plist_parse (Buffer_toString (Buf.subarray_from frame 16)).

(** A header [hdr] and a payload [p] that make a frame the parser can
    deliver as [m]. *)
Definition well_framed {codec : Codec} (hdr p : Buffer) (m : UsbMuxPlist)
  : Prop :=
  List.length hdr = 16%nat
  /\ p <> []
  /\ (forall rest,
        Buf.readUInt32LE (hdr ++ rest) 0 = Some (Buf.length p + 16))
  /\ plist_parse (Buffer_toString p) = Some m.

(** The bytes of a sequence of frames, and the callbacks they are due. *)
Definition frames_bytes (fs : list (Buffer * Buffer * UsbMuxPlist))
  : Buffer :=
  List.concat (map (fun f => fst (fst f) ++ snd (fst f)) fs).

Definition deliver {W : Type} (onComplete : UsbMuxPlist -> W -> W)
  (fs : list (Buffer * Buffer * UsbMuxPlist)) (w : W) : W :=
  fold_left (fun acc f => onComplete (snd f) acc) fs w.

(** The parser state after a message whose payload was [text]. *)
Definition parsed (text : string) : protocol.ParserState :=
  {| protocol.len := Some 0; protocol.msg := text |}.

(** The pieces of payload a sequence of chunks delivers to [msg += body]
    when the first chunk [c0] holds the header: what [c0] has beyond the
    header, unless there is nothing, and then the chunks that follow. *)
Definition payload_pieces (c0 : Buffer) (cs : list Buffer) : list Buffer :=
  match Buf.subarray_from c0 16 with
  | [] => cs
  | p0 => p0 :: cs
  end.

(** The texts of the pieces, joined in order. *)
Definition joined {codec : Codec} (pieces : list Buffer) : string :=
  fold_right (fun p s => Buffer_toString p +++ s) EmptyString pieces.

(* ------------------------------------------------------------------ *)
(** ** More of the code: the listener as a whole *)

(** The state a call has reached, whether it returned or threw. *)
Definition outcome_state {A : Type} (o : Outcome A) : A :=
  match o with
  | Returned a => a
  | Threw _ a => a
  end.


Section CreateListener.
Context {codec : Codec}.




End CreateListener.

(** The message handler of a listener over a sequence of messages. *)
Definition listener_run (conn : Socket) (ms : list UsbMuxPlist)
  (w : ListenerWorld) : ListenerWorld :=
  fold_left (fun acc m => listener_onMsgComplete conn m acc) ms w.

(** Every entry of the registry is stored under its own serial number. *)
Definition keyed_by_serial (r : Registry) : Prop :=
  Forall (fun kv => fst kv = SerialNumber (snd kv)) r.




(* ------------------------------------------------------------------ *)
(** ** More of the code: the relay's listener *)

(** The part of a relay that follows its listener: whether [readyCheck]
    is still registered for "attached", and the watchdog timer. *)
Record RelayListener := {
  rl_relay : Relay;
  rl_ready_check : bool;
  rl_timer : TimerState
}.

(** What reaches the relay from its listener and its timer, each with the
    registry at that moment. *)
Inductive RelayEvent :=
| EvAttached (u : string) (seen : Registry)
| EvDetached (u : string) (seen : Registry)
| EvError (e : JsError) (seen : Registry)
| EvWatchdog (seen : Registry).

(** The relay once [_startListener] has run. *)
Definition relay_listening (r : Relay) : RelayListener :=
  {| rl_relay := r; rl_ready_check := true; rl_timer := Armed |}.

(** The notification is one [readyCheck] acts on. *)
Definition satisfies_pin (r : Relay) (u : string) : bool :=
  negb (given (_udid r) && negb (String.eqb (pinned_name r) u)).

(** The listeners of [_startListener], in the order they were
    registered, and the callback of the timer. *)
Definition relay_listener_step (s : RelayListener) (e : RelayEvent)
  : RelayListener * Trace :=
  match e with
  | EvAttached u seen =>
      let forwarded := _emit "attached" (DUdid u) seen in
      if rl_ready_check s
      then
        if satisfies_pin (rl_relay s) u
        then
          (* removeListener("attached", readyCheck); clearTimeout(timer) *)
          ({| rl_relay := rl_relay s;
              rl_ready_check := false;
              rl_timer := match rl_timer s with Armed => Cleared | x => x end |},
           readyCheck (rl_relay s) seen u ++ forwarded)
        else (s, readyCheck (rl_relay s) seen u ++ forwarded)
      else (s, forwarded)
  | EvDetached u seen => (s, _emit "detached" (DUdid u) seen)
  | EvError err seen => (s, _emit "error" (DError err) seen)
  | EvWatchdog seen =>
      match rl_timer s with
      | Armed =>
          ({| rl_relay := rl_relay s;
              rl_ready_check := rl_ready_check s;
              rl_timer := Fired |},
           watchdog (rl_relay s) seen)
      | _ => (s, [])
      end
  end.

Fixpoint relay_listener_run (s : RelayListener) (es : list RelayEvent)
  : RelayListener * Trace :=
  match es with
  | [] => (s, [])
  | e :: es' =>
      let (s1, t1) := relay_listener_step s e in
      let (s2, t2) := relay_listener_run s1 es' in
      (s2, t1 ++ t2)
  end.

Definition is_event (name : string) (e : Effect) : bool :=
  match e with
  | Emit ev _ _ => String.eqb ev name
  | _ => false
  end.

(** No "ready" and no "warning" in the trace. *)
Definition quiet (t : Trace) : bool :=
  forallb (fun e => negb (is_event "ready" e || is_event "warning" e)) t.

(** At most one "ready", and neither "ready" nor "warning" after it. *)
Fixpoint ready_once (t : Trace) : bool :=
  match t with
  | [] => true
  | e :: t' => if is_event "ready" e then quiet t' else ready_once t'
  end.

(** What the relay passes through of an event of its listener. *)
Definition passed_through (e : RelayEvent) : Trace :=
  match e with
  | EvAttached u seen => _emit "attached" (DUdid u) seen
  | EvDetached u seen => _emit "detached" (DUdid u) seen
  | EvError err seen => _emit "error" (DError err) seen
  | EvWatchdog _ => []
  end.

Definition is_passed (e : Effect) : bool :=
  is_event "attached" e || is_event "detached" e || is_event "error" e.

(* ------------------------------------------------------------------ *)
(** ** More of the code: [getTunnel] *)




(* ================================================================== *)
(** * Properties *)

(* ------------------------------------------------------------------ *)
(** ** Facts about the int32 operators *)

Module JsNumFacts.
Import JsNum.

Lemma to_int32_small z :
  -2147483648 <= z < 2147483648 -> to_int32 z = z.
Proof.
  intros H. unfold to_int32.
  rewrite Z.mod_small by lia. lia.
Qed.

Lemma to_int32_mod256 z : to_int32 z mod 256 = z mod 256.
Proof.
  unfold to_int32.
  Z.div_mod_to_equations. lia.
Qed.

Lemma to_int32_byte1 z : (to_int32 z / 256) mod 256 = (z / 256) mod 256.
Proof.
  unfold to_int32.
  Z.div_mod_to_equations. lia.
Qed.

Lemma land_255 z : Z.land z 255 = z mod 256.
Proof.
  change 255 with (Z.ones 8).
  rewrite Z.land_ones by lia. reflexivity.
Qed.

Lemma band_255 z : band z 255 = z mod 256.
Proof.
  unfold band.
  rewrite (to_int32_small 255) by lia.
  rewrite land_255, to_int32_mod256.
  apply to_int32_small.
  pose proof (Z.mod_pos_bound z 256). lia.
Qed.

Lemma sar_8 z : sar z 8 = to_int32 z / 256.
Proof.
  unfold sar.
  change (8 mod 32) with 8.
  rewrite Z.shiftr_div_pow2 by lia.
  change (2 ^ 8) with 256.
  apply to_int32_small.
  unfold to_int32. Z.div_mod_to_equations. lia.
Qed.

Lemma shl_8_byte b : 0 <= b < 256 -> shl b 8 = b * 256.
Proof.
  intros H. unfold shl.
  change (8 mod 32) with 8.
  rewrite (to_int32_small b) by lia.
  rewrite Z.shiftl_mul_pow2 by lia.
  change (2 ^ 8) with 256.
  apply to_int32_small. lia.
Qed.

(** Two bytes that do not overlap are joined by [|] as by [+]. *)
Lemma lor_bytes hi lo :
  0 <= hi < 256 -> 0 <= lo < 256 -> Z.lor (hi * 256) lo = hi * 256 + lo.
Proof.
  intros Hhi Hlo.
  assert (Hdisj : Z.land (hi * 256) lo = 0).
  { apply Z.bits_inj'. intros n Hn.
    rewrite Z.land_spec, Z.bits_0.
    destruct (Z.lt_ge_cases n 8) as [Hlt | Hge].
    - change 256 with (2 ^ 8).
      rewrite Z.mul_pow2_bits_low by lia. reflexivity.
    - rewrite (Z.bits_above_log2 lo n).
      + apply andb_false_r.
      + lia.
      + destruct (Z.eq_dec lo 0) as [-> | Hnz]; [simpl; lia |].
        apply Z.lt_le_trans with 8; [| lia].
        apply Z.log2_lt_pow2; lia. }
  rewrite <- Z.lxor_lor by exact Hdisj.
  symmetry. apply Z.add_nocarry_lxor. exact Hdisj.
Qed.

Lemma bor_bytes hi lo :
  0 <= hi < 256 -> 0 <= lo < 256 -> bor (hi * 256) lo = hi * 256 + lo.
Proof.
  intros Hhi Hlo. unfold bor.
  rewrite (to_int32_small (hi * 256)), (to_int32_small lo) by lia.
  rewrite lor_bytes by assumption.
  apply to_int32_small. lia.
Qed.


End JsNumFacts.

(** [byteSwap16] exchanges the two low bytes of its argument and drops
    the rest. *)
Lemma byteSwap16_bytes (v : Z) :
  protocol.byteSwap16 v = (v mod 256) * 256 + (v / 256) mod 256.
Proof.
  unfold protocol.byteSwap16.
  rewrite !JsNumFacts.band_255, JsNumFacts.sar_8, JsNumFacts.to_int32_byte1.
  pose proof (Z.mod_pos_bound v 256 ltac:(lia)) as Hlo.
  pose proof (Z.mod_pos_bound (v / 256) 256 ltac:(lia)) as Hhi.
  rewrite JsNumFacts.shl_8_byte by exact Hlo.
  apply JsNumFacts.bor_bytes; assumption.
Qed.

(** C9. On the 16-bit values [byteSwap16] is an involution, and it stays
    within the 16-bit values. *)
Theorem byteSwap16_involutive (v : Z) :
  0 <= v < 65536 ->
  protocol.byteSwap16 (protocol.byteSwap16 v) = v
  /\ 0 <= protocol.byteSwap16 v < 65536.
Proof.
  intros Hv.
  rewrite !byteSwap16_bytes.
  Z.div_mod_to_equations. lia.
Qed.

Lemma byteSwap16_involutive_witness :
  0 <= 4660 < 65536
  /\ protocol.byteSwap16 (protocol.byteSwap16 4660) = 4660
  /\ 0 <= protocol.byteSwap16 4660 < 65536.
Proof.
  split; [lia | apply (byteSwap16_involutive 4660); lia].
Defined.

(** C5. The Connect frame is the packing of an object whose [PortNumber]
    is the requested port with its two bytes exchanged: the low byte of
    the field is the high byte of the port and its high byte is the low
    byte of the port, so the field written little-endian is the port in
    network order. *)
Theorem connect_frame_port_swapped (codec : Codec) (deviceID port : Z) :
  protocol.connect deviceID port
  = protocol.pack (protocol.connect_payload deviceID port)
  /\ field "PortNumber" (protocol.connect_payload deviceID port)
     = Some (PInteger (protocol.byteSwap16 port))
  /\ protocol.byteSwap16 port mod 256 = (port / 256) mod 256
  /\ protocol.byteSwap16 port / 256 = port mod 256.
Proof.
  split; [reflexivity |].
  split; [reflexivity |].
  rewrite byteSwap16_bytes.
  Z.div_mod_to_equations. lia.
Qed.

(* ------------------------------------------------------------------ *)
(** ** Facts about [Buffer] *)

Module BufFacts.

Lemma Z_of_byte_of_Z (z : Z) : Buf.Z_of_byte (Buf.byte_of_Z z) = z mod 256.
Proof.
  unfold Buf.Z_of_byte, Buf.byte_of_Z.
  pose proof (Z.mod_pos_bound z 256 ltac:(lia)) as Hb.
  destruct (Byte.of_N (Z.to_N (z mod 256))) as [b |] eqn:E.
  - apply Byte.to_of_N in E. rewrite E. apply Z2N.id. lia.
  - apply Byte.of_N_None_iff in E. lia.
Qed.

Lemma u32_of_bytes (v : Z) :
  0 <= v <= 4294967295 ->
  v mod 256 + 256 * ((v / 256) mod 256) + 65536 * ((v / 65536) mod 256)
  + 16777216 * ((v / 16777216) mod 256) = v.
Proof.
  intros Hv. Z.div_mod_to_equations. lia.
Qed.

Lemma length_app (a b : Buffer) :
  Buf.length (a ++ b) = Buf.length a + Buf.length b.
Proof.
  unfold Buf.length. rewrite List.length_app. lia.
Qed.

Lemma length_nonneg (a : Buffer) : 0 <= Buf.length a.
Proof. unfold Buf.length. lia. Qed.

Lemma length_zero (a : Buffer) : Buf.length a = 0 <-> a = [].
Proof.
  unfold Buf.length. split.
  - destruct a; [reflexivity | simpl; lia].
  - intros ->. reflexivity.
Qed.

(** [subarray(0, n)] of a buffer that starts with [n] bytes [a]. *)
Lemma subarray_prefix (a b : Buffer) :
  Buf.subarray (a ++ b) 0 (Buf.length a) = a.
Proof.
  unfold Buf.subarray, Buf.clamp_index.
  rewrite length_app.
  pose proof (length_nonneg a) as Ha. pose proof (length_nonneg b) as Hb.
  destruct (0 <? 0) eqn:E0; [lia |].
  destruct (Buf.length a <? 0) eqn:E1; [lia |].
  rewrite (Z.min_l 0) by lia.
  rewrite (Z.min_l (Buf.length a)) by lia.
  rewrite Z.sub_0_r, Z.max_l by lia.
  simpl skipn. unfold Buf.length. rewrite Nat2Z.id.
  rewrite firstn_app, Nat.sub_diag, firstn_all. simpl.
  apply app_nil_r.
Qed.

(** [subarray(0, n)] of a buffer no longer than [n]. *)
Lemma subarray_whole (a : Buffer) (n : Z) :
  Buf.length a <= n -> Buf.subarray a 0 n = a.
Proof.
  intros Hn.
  unfold Buf.subarray, Buf.clamp_index.
  pose proof (length_nonneg a) as Ha.
  destruct (0 <? 0) eqn:E0; [lia |].
  destruct (n <? 0) eqn:E1; [lia |].
  rewrite (Z.min_l 0) by lia.
  rewrite (Z.min_r n) by lia.
  rewrite Z.sub_0_r, Z.max_l by lia.
  simpl skipn. unfold Buf.length. rewrite Nat2Z.id.
  apply firstn_all.
Qed.

(** [subarray(n)] of a buffer that starts with [n] bytes [a]. *)
Lemma subarray_from_app (a b : Buffer) :
  Buf.subarray_from (a ++ b) (Buf.length a) = b.
Proof.
  unfold Buf.subarray_from, Buf.subarray, Buf.clamp_index.
  rewrite length_app.
  pose proof (length_nonneg a) as Ha. pose proof (length_nonneg b) as Hb.
  destruct (Buf.length a <? 0) eqn:E0; [lia |].
  destruct (Buf.length a + Buf.length b <? 0) eqn:E1; [lia |].
  rewrite (Z.min_l (Buf.length a)) by lia.
  rewrite Z.min_id.
  replace (Buf.length a + Buf.length b - Buf.length a) with (Buf.length b)
    by lia.
  rewrite Z.max_l by lia.
  unfold Buf.length. rewrite !Nat2Z.id.
  rewrite skipn_app, skipn_all, Nat.sub_diag. simpl.
  apply firstn_all.
Qed.

Lemma subarray_from_all (a : Buffer) :
  Buf.subarray_from a (Buf.length a) = [].
Proof.
  rewrite <- (app_nil_r a) at 1. apply subarray_from_app.
Qed.

Lemma write_inv (b b' : Buffer) (v off : Z) :
  Buf.writeUInt32LE b v off = Some b' ->
  0 <= v <= 4294967295
  /\ b' = firstn (Z.to_nat off) b
          ++ [Buf.byte_of_Z v; Buf.byte_of_Z (v / 256);
              Buf.byte_of_Z (v / 65536); Buf.byte_of_Z (v / 16777216)]
          ++ skipn (Z.to_nat off + 4) b.
Proof.
  unfold Buf.writeUInt32LE.
  destruct ((0 <=? v) && (v <=? 4294967295)) eqn:Hv; simpl; [| discriminate].
  destruct ((0 <=? off) && (off + 4 <=? Buf.length b)); simpl;
    [| discriminate].
  intros [= <-].
  apply andb_prop in Hv as [Hlo Hhi].
  apply Z.leb_le in Hlo, Hhi. split; [lia | reflexivity].
Qed.

End BufFacts.

(** ** Facts about strings *)

Lemma append_empty_r (s : string) : s +++ EmptyString = s.
Proof.
  induction s as [| c s IH]; simpl; [reflexivity | now rewrite IH].
Qed.

Lemma append_assoc (a b c : string) : (a +++ b) +++ c = a +++ (b +++ c).
Proof.
  induction a as [| x a IH]; simpl; [reflexivity | now rewrite IH].
Qed.

(* ------------------------------------------------------------------ *)
(** ** The frame builder and the parser *)

Section ParserFacts.
Context {codec : Codec}.

(** What [pack] returns is a header and the payload, and the header reads
    back as the total length. *)
Lemma pack_framed (obj : PlistValue) (frame : Buffer) :
  protocol.pack obj = Some frame ->
  framed frame (Buffer_from (plist_build obj)).
Proof.
  unfold protocol.pack.
  set (payload := Buffer_from (plist_build obj)).
  set (total := Buf.length payload + 16).
  change (Buf.fill (Buf.alloc 16) x00) with (repeat x00 16).
  destruct (Buf.writeUInt32LE (repeat x00 16) total 0) as [h1 |] eqn:E1;
    [| discriminate].
  apply BufFacts.write_inv in E1 as [Hrange ->].
  cbn -[Z.div Buf.byte_of_Z].
  intros [= <-].
  exists [Buf.byte_of_Z total; Buf.byte_of_Z (total / 256);
          Buf.byte_of_Z (total / 65536); Buf.byte_of_Z (total / 16777216);
          Buf.byte_of_Z 1; Buf.byte_of_Z (1 / 256);
          Buf.byte_of_Z (1 / 65536); Buf.byte_of_Z (1 / 16777216);
          Buf.byte_of_Z 8; Buf.byte_of_Z (8 / 256);
          Buf.byte_of_Z (8 / 65536); Buf.byte_of_Z (8 / 16777216);
          Buf.byte_of_Z 1; Buf.byte_of_Z (1 / 256);
          Buf.byte_of_Z (1 / 65536); Buf.byte_of_Z (1 / 16777216)].
  split; [| split].
  - unfold Buf.concat. simpl. rewrite app_nil_r. reflexivity.
  - reflexivity.
  - intros rest. unfold Buf.readUInt32LE.
    replace ((0 <=? 0) && (0 + 4 <=? Buf.length _)) with true.
    + cbn -[Z.div Buf.byte_of_Z Buf.Z_of_byte Z.add Z.mul].
      rewrite !BufFacts.Z_of_byte_of_Z.
      f_equal. apply BufFacts.u32_of_bytes. exact Hrange.
    + symmetry. apply andb_true_intro. split; [reflexivity |].
      apply Z.leb_le. rewrite BufFacts.length_app.
      pose proof (BufFacts.length_nonneg rest).
      change (Buf.length _) with 16 at 1. lia.
Qed.


(** The payload of a frame is what lies beyond its first 16 bytes. *)
Lemma framed_payload (frame payload : Buffer) :
  framed frame payload -> Buf.subarray_from frame 16 = payload.
Proof.
  intros (hdr & -> & Hhdr & _).
  replace 16 with (Buf.length hdr) by (unfold Buf.length; lia).
  apply BufFacts.subarray_from_app.
Qed.

Section ParseSteps.
Context {W : Type}.
Variable onComplete : UsbMuxPlist -> W -> W.

(** One call of [parse], written out. *)
Lemma parse_S (k : nat) (st : protocol.ParserState) (w : W) (data : Buffer) :
  protocol.parse onComplete (S k) st w data
  = match (if protocol.len_falsy st
           then match Buf.readUInt32LE data 0 with
                | Some total =>
                    Some ({| protocol.len := Some (total - 16);
                             protocol.msg := EmptyString |},
                          Buf.subarray_from data 16)
                | None => None
                end
           else Some (st, data)) with
    | None => Threw RangeError (st, w)
    | Some (st1, data1) =>
        if protocol.len_falsy st && (Buf.length data1 =? 0)
        then Returned (st1, w)
        else
          let body := Buf.subarray data1 0 (protocol.len_value st1) in
          let msg' := protocol.msg st1 +++ Buffer_toString body in
          let len' := protocol.len_value st1 - Buf.length body in
          let st2 := {| protocol.len := Some len'; protocol.msg := msg' |} in
          match (if len' =? 0
                 then option_map (fun m => onComplete m w) (plist_parse msg')
                 else Some w) with
          | None => Threw PlistError (st2, w)
          | Some w' =>
              let data2 := Buf.subarray_from data1 (Buf.length body) in
              if Buf.length data2 =? 0 then Returned (st2, w')
              else protocol.parse onComplete k st2 w' data2
          end
    end.
Proof. reflexivity. Qed.

(** A parser that is between messages, handed a chunk that starts with a
    whole frame: the callback runs on the decoded payload, and the rest of
    the chunk, when there is one, is parsed by the recursive call. *)
Lemma parse_frame (k : nat) (st : protocol.ParserState) (w : W)
  (hdr p rest : Buffer) (m : UsbMuxPlist) :
  protocol.len_falsy st = true ->
  List.length hdr = 16%nat ->
  p <> [] ->
  Buf.readUInt32LE (hdr ++ p ++ rest) 0 = Some (Buf.length p + 16) ->
  plist_parse (Buffer_toString p) = Some m ->
  protocol.parse onComplete (S k) st w (hdr ++ p ++ rest)
  = match rest with
    | [] => Returned (parsed (Buffer_toString p), onComplete m w)
    | _ :: _ =>
        protocol.parse onComplete k (parsed (Buffer_toString p))
          (onComplete m w) rest
    end.
Proof.
  intros Hfresh Hhdr Hp Hread Hm.
  assert (H16 : Buf.length hdr = 16) by (unfold Buf.length; lia).
  assert (Hskip : Buf.subarray_from (hdr ++ p ++ rest) 16 = p ++ rest).
  { rewrite <- H16. apply BufFacts.subarray_from_app. }
  rewrite parse_S, Hfresh, Hread, Hskip.
  replace (Buf.length p + 16 - 16) with (Buf.length p) by lia.
  assert (Hlen : (Buf.length (p ++ rest) =? 0) = false).
  { apply Z.eqb_neq. rewrite BufFacts.length_zero.
    destruct p; [congruence | discriminate]. }
  rewrite Hlen. simpl andb. cbv iota zeta.
  unfold protocol.len_value. simpl protocol.len. simpl protocol.msg.
  rewrite BufFacts.subarray_prefix.
  rewrite Z.sub_diag, Z.eqb_refl.
  simpl String.append. rewrite Hm. simpl option_map. cbv iota.
  rewrite BufFacts.subarray_from_app.
  destruct rest as [| b rest'].
  - reflexivity.
  - replace (Buf.length (b :: rest') =? 0) with false; [reflexivity |].
    symmetry. apply Z.eqb_neq. rewrite BufFacts.length_zero. discriminate.
Qed.

(** X4. Any number of frames in one chunk: one callback per frame, in
    order, when the call stack has room for one call per frame. *)
Lemma many_frames_in_one_chunk
  (fs : list (Buffer * Buffer * UsbMuxPlist)) :
  forall (stack : nat) (st : protocol.ParserState) (w : W),
    fs <> [] ->
    Forall (fun f => well_framed (fst (fst f)) (snd (fst f)) (snd f)) fs ->
    (List.length fs <= stack)%nat ->
    protocol.len_falsy st = true ->
    exists st',
      protocol.parse onComplete stack st w (frames_bytes fs)
      = Returned (st', deliver onComplete fs w).
Proof.
  induction fs as [| [[hdr p] m] fs IH]; intros stack st w Hne Hall Hstack Hst;
    [congruence |].
  inversion Hall as [| ? ? Hf Hfs]; subst.
  destruct Hf as (Hhdr & Hp & Hread & Hm). simpl in Hhdr, Hp, Hread, Hm.
  destruct stack as [| k]; [simpl in Hstack; lia |].
  unfold frames_bytes. simpl map. simpl List.concat. rewrite <- app_assoc.
  fold (frames_bytes fs).
  rewrite (parse_frame k st w hdr p (frames_bytes fs) m);
    try assumption; [| apply Hread].
  destruct fs as [| f fs'].
  - eexists. reflexivity.
  - assert (Hrest : exists b t, frames_bytes (f :: fs') = b :: t).
    { inversion Hfs as [| ? ? Hf' _]; subst.
      destruct Hf' as (Hh' & _).
      destruct f as [[h' p'] m']. simpl in Hh'.
      unfold frames_bytes. simpl.
      destruct h' as [| b h'']; [discriminate |].
      exists b. eexists. reflexivity. }
    destruct Hrest as (b & t & Hbytes). rewrite Hbytes, <- Hbytes.
    apply (IH k (parsed (Buffer_toString p)) (onComplete m w)).
    + discriminate.
    + exact Hfs.
    + simpl in Hstack |- *. lia.
    + reflexivity.
Qed.

(** C2. Two messages produced by the frame builder, concatenated and
    handed to a fresh parser as one chunk: the callback runs exactly
    twice, on the first decoded message and then on the second, whatever
    the callback is, once the call stack has room for the two calls. *)
Theorem two_frames_in_one_chunk (obj1 obj2 : PlistValue)
  (f1 f2 : Buffer) (m1 m2 : UsbMuxPlist) (stack : nat) (w : W) :
  protocol.pack obj1 = Some f1 ->
  protocol.pack obj2 = Some f2 ->
  Buffer_from (plist_build obj1) <> [] ->
  Buffer_from (plist_build obj2) <> [] ->
  decode_frame f1 = Some m1 ->
  decode_frame f2 = Some m2 ->
  (2 <= stack)%nat ->
  protocol.parse onComplete stack protocol.makeParser w
    (Buf.concat [f1; f2])
  = Returned (parsed (Buffer_toString (Buffer_from (plist_build obj2))),
              onComplete m2 (onComplete m1 w)).
Proof.
  intros Hp1 Hp2 Hne1 Hne2 Hd1 Hd2 Hstack.
  apply pack_framed in Hp1, Hp2.
  unfold decode_frame in Hd1, Hd2.
  rewrite (framed_payload _ _ Hp1) in Hd1.
  rewrite (framed_payload _ _ Hp2) in Hd2.
  destruct Hp1 as (h1 & -> & Hh1 & Hr1).
  destruct Hp2 as (h2 & -> & Hh2 & Hr2).
  destruct stack as [| [| k]]; [lia | lia |].
  unfold Buf.concat. simpl List.concat. rewrite app_nil_r, <- app_assoc.
  rewrite (parse_frame (S k) _ w h1 _ (h2 ++ Buffer_from (plist_build obj2)) m1);
    try assumption; try reflexivity; [| apply Hr1].
  destruct h2 as [| b h2']; [discriminate Hh2 |].
  rewrite <- app_comm_cons.
  rewrite app_comm_cons.
  rewrite <- (app_nil_r (Buffer_from (plist_build obj2))) at 1.
  rewrite (parse_frame k _ _ (b :: h2') _ [] m2);
    try assumption; try reflexivity.
  apply Hr2.
Qed.

(** A parser that is inside a message, handed a chunk that holds no more
    than what the message still needs. *)
Lemma parse_body_chunk (k : nat) (l : Z) (t : string) (w : W) (p : Buffer) :
  0 < l ->
  Buf.length p <= l ->
  protocol.parse onComplete (S k)
    {| protocol.len := Some l; protocol.msg := t |} w p
  = if Buf.length p =? l
    then match plist_parse (t +++ Buffer_toString p) with
         | Some m =>
             Returned (parsed (t +++ Buffer_toString p), onComplete m w)
         | None =>
             Threw PlistError (parsed (t +++ Buffer_toString p), w)
         end
    else Returned ({| protocol.len := Some (l - Buf.length p);
                      protocol.msg := t +++ Buffer_toString p |}, w).
Proof.
  intros Hl Hp.
  assert (Hbusy : protocol.len_falsy
                    {| protocol.len := Some l; protocol.msg := t |} = false).
  { unfold protocol.len_falsy, JsNum.truthy. simpl.
    replace (l =? 0) with false by (symmetry; apply Z.eqb_neq; lia).
    reflexivity. }
  rewrite parse_S, Hbusy.
  cbn [andb protocol.len_value protocol.len protocol.msg].
  rewrite BufFacts.subarray_whole by exact Hp.
  rewrite BufFacts.subarray_from_all.
  change (Buf.length [] =? 0) with true. cbv iota.
  destruct (Buf.length p =? l) eqn:E.
  - apply Z.eqb_eq in E. rewrite E, Z.sub_diag. simpl Z.eqb. cbv iota.
    unfold parsed.
    destruct (plist_parse (t +++ Buffer_toString p)); reflexivity.
  - apply Z.eqb_neq in E.
    replace (l - Buf.length p =? 0) with false
      by (symmetry; apply Z.eqb_neq; lia).
    reflexivity.
Qed.

(** The chunks that complete a message, none of them empty: the callback
    runs once, with the last chunk, on the joined text. *)
Lemma feed_body (k : nat) (cs : list Buffer) :
  forall (l : Z) (t : string) (w : W) (m : UsbMuxPlist),
    0 < l ->
    Forall (fun c => c <> []) cs ->
    Buf.length (List.concat cs) = l ->
    plist_parse (t +++ joined cs) = Some m ->
    protocol.feed onComplete (S k)
      {| protocol.len := Some l; protocol.msg := t |} w cs
    = Returned (parsed (t +++ joined cs), onComplete m w).
Proof.
  induction cs as [| c cs IH]; intros l t w m Hl Hne Hsum Hm.
  - unfold Buf.length in Hsum. simpl in Hsum. lia.
  - inversion Hne as [| ? ? Hc Hcs]; subst.
    simpl List.concat in Hl. rewrite BufFacts.length_app in Hl.
    pose proof (BufFacts.length_nonneg (List.concat cs)) as Hrest.
    cbn [protocol.feed]. simpl List.concat.
    rewrite BufFacts.length_app.
    rewrite parse_body_chunk; [| exact Hl | lia].
    simpl joined in *.
    destruct cs as [| c' cs'].
    + simpl List.concat. change (Buf.length []) with 0.
      rewrite Z.add_0_r, Z.eqb_refl.
      simpl joined in *. rewrite append_empty_r in *.
      rewrite Hm. reflexivity.
    + assert (Hpos : 0 < Buf.length (List.concat (c' :: cs'))).
      { inversion Hcs as [| ? ? Hc' ?]; subst.
        simpl List.concat. rewrite BufFacts.length_app.
        pose proof (BufFacts.length_nonneg (List.concat cs')).
        assert (Buf.length c' <> 0)
          by (rewrite BufFacts.length_zero; exact Hc').
        pose proof (BufFacts.length_nonneg c'). lia. }
      replace (Buf.length c =? _) with false
        by (symmetry; apply Z.eqb_neq; lia).
      rewrite <- append_assoc in Hm |- *.
      replace (Buf.length c + Buf.length (List.concat (c' :: cs'))
               - Buf.length c)
        with (Buf.length (List.concat (c' :: cs'))) by lia.
      apply IH; try assumption; reflexivity.
Qed.

(** A parser that is between messages, handed a chunk that starts with a
    header announcing [n] bytes of payload: once the header is consumed,
    what the chunk has beyond it is handled as by a parser that is inside
    the message. *)
Lemma parse_header (k : nat) (st : protocol.ParserState) (w : W)
  (hdr p0 : Buffer) (n : Z) :
  protocol.len_falsy st = true ->
  List.length hdr = 16%nat ->
  Buf.readUInt32LE (hdr ++ p0) 0 = Some (n + 16) ->
  0 < n ->
  protocol.parse onComplete (S k) st w (hdr ++ p0)
  = match p0 with
    | [] => Returned ({| protocol.len := Some n;
                         protocol.msg := EmptyString |}, w)
    | _ :: _ =>
        protocol.parse onComplete (S k)
          {| protocol.len := Some n; protocol.msg := EmptyString |} w p0
    end.
Proof.
  intros Hfresh Hhdr Hread Hn.
  assert (Hskip : Buf.subarray_from (hdr ++ p0) 16 = p0).
  { replace 16 with (Buf.length hdr) by (unfold Buf.length; lia).
    apply BufFacts.subarray_from_app. }
  assert (Hbusy : protocol.len_falsy
                    {| protocol.len := Some n;
                       protocol.msg := EmptyString |} = false).
  { unfold protocol.len_falsy, JsNum.truthy. simpl.
    replace (n =? 0) with false by (symmetry; apply Z.eqb_neq; lia).
    reflexivity. }
  rewrite parse_S, Hfresh, Hread, Hskip.
  replace (n + 16 - 16) with n by lia.
  destruct p0 as [| b p0'].
  - reflexivity.
  - rewrite (parse_S k {| protocol.len := Some n;
                          protocol.msg := EmptyString |}), Hbusy.
    replace (Buf.length (b :: p0') =? 0) with false; [reflexivity |].
    symmetry. apply Z.eqb_neq. rewrite BufFacts.length_zero. discriminate.
Qed.

(** The same for a sequence of chunks whose first holds the header. *)
Lemma feed_header (k : nat) (st : protocol.ParserState) (w : W)
  (hdr p0 : Buffer) (cs : list Buffer) (n : Z) :
  protocol.len_falsy st = true ->
  List.length hdr = 16%nat ->
  Buf.readUInt32LE (hdr ++ p0) 0 = Some (n + 16) ->
  0 < n ->
  protocol.feed onComplete (S k) st w ((hdr ++ p0) :: cs)
  = protocol.feed onComplete (S k)
      {| protocol.len := Some n; protocol.msg := EmptyString |} w
      (payload_pieces (hdr ++ p0) cs).
Proof.
  intros Hfresh Hhdr Hread Hn.
  unfold payload_pieces.
  replace (Buf.subarray_from (hdr ++ p0) 16) with p0.
  - cbn [protocol.feed].
    rewrite (parse_header k st w hdr p0 n) by assumption.
    destruct p0; reflexivity.
  - replace 16 with (Buf.length hdr) by (unfold Buf.length; lia).
    symmetry. apply BufFacts.subarray_from_app.
Qed.

(** C1, as the parser has it.  A message produced by the frame builder,
    handed to a fresh parser in chunks of which the first holds at least
    the 16 bytes of the header, the following ones are not empty, and none
    ends inside a character (the pieces of payload, turned into text one
    by one, join to the text of the payload): the callback runs exactly
    once, on the decoded message. *)
Theorem chunked_frame_parses (obj : PlistValue) (frame : Buffer)
  (m : UsbMuxPlist) (c0 : Buffer) (cs : list Buffer) (stack : nat) (w : W) :
  protocol.pack obj = Some frame ->
  Buffer_from (plist_build obj) <> [] ->
  decode_frame frame = Some m ->
  Buf.concat (c0 :: cs) = frame ->
  16 <= Buf.length c0 ->
  Forall (fun c => c <> []) cs ->
  joined (payload_pieces c0 cs)
  = Buffer_toString (Buf.subarray_from frame 16) ->
  (1 <= stack)%nat ->
  protocol.feed onComplete stack protocol.makeParser w (c0 :: cs)
  = Returned (parsed (Buffer_toString (Buf.subarray_from frame 16)),
              onComplete m w).
Proof.
  intros Hpack Hne Hdec Hcat Hc0 Hcs Hjoin Hstack.
  apply pack_framed in Hpack.
  unfold decode_frame in Hdec.
  rewrite (framed_payload _ _ Hpack) in *.
  set (payload := Buffer_from (plist_build obj)) in *.
  destruct Hpack as (hdr & Hframe & Hhdr & Hread).
  destruct stack as [| k]; [lia |].
  (* the first chunk is the header and a first piece of the payload *)
  assert (Hsplit : exists p0, c0 = hdr ++ p0 /\ payload = p0 ++ List.concat cs).
  { unfold Buf.concat in Hcat. simpl List.concat in Hcat.
    rewrite Hframe in Hcat.
    apply app_eq_app in Hcat as [x [[-> ->] | [-> Hx]]].
    - exists x. split; reflexivity.
    - assert (x = []) as ->.
      { unfold Buf.length in Hc0. rewrite List.length_app in Hhdr.
        destruct x; [reflexivity | simpl in Hhdr; lia]. }
      exists []. rewrite !app_nil_r. simpl in Hx.
      split; [reflexivity | symmetry; exact Hx]. }
  destruct Hsplit as (p0 & -> & Hpayload).
  assert (Hn : 0 < Buf.length payload).
  { pose proof (BufFacts.length_nonneg payload).
    assert (Buf.length payload <> 0)
      by (rewrite BufFacts.length_zero; exact Hne).
    lia. }
  rewrite (feed_header k _ w hdr p0 cs (Buf.length payload));
    [| reflexivity | exact Hhdr | apply Hread | exact Hn].
  rewrite <- Hjoin.
  change (joined (payload_pieces (hdr ++ p0) cs))
    with (EmptyString +++ joined (payload_pieces (hdr ++ p0) cs)).
  assert (Hp0 : Buf.subarray_from (hdr ++ p0) 16 = p0).
  { replace 16 with (Buf.length hdr) by (unfold Buf.length; lia).
    apply BufFacts.subarray_from_app. }
  apply feed_body.
  - exact Hn.
  - unfold payload_pieces. rewrite Hp0.
    destruct p0; [exact Hcs |].
    constructor; [discriminate | exact Hcs].
  - unfold payload_pieces. rewrite Hp0, Hpayload.
    destruct p0; reflexivity.
  - simpl String.append. rewrite Hjoin. exact Hdec.
Qed.

(** A parser that is between messages throws on a chunk of fewer than
    four bytes: the length cannot be read. *)
Lemma parse_short_chunk (k : nat) (st : protocol.ParserState) (w : W)
  (data : Buffer) :
  protocol.len_falsy st = true ->
  Buf.length data < 4 ->
  protocol.parse onComplete (S k) st w data = Threw RangeError (st, w).
Proof.
  intros Hfresh Hshort.
  rewrite parse_S, Hfresh.
  unfold Buf.readUInt32LE.
  replace (0 + 4 <=? Buf.length data) with false
    by (symmetry; apply Z.leb_gt; lia).
  rewrite andb_false_r. reflexivity.
Qed.

End ParseSteps.

End ParserFacts.

Section ParserExamples.
#[local] Existing Instance TestCodec.codec.

(** C1 fails on chunks of one byte: the first call of [parse] reads the
    32-bit length from a buffer of one byte and throws, and the callback
    never runs. *)
Lemma one_byte_chunks_throw :
  protocol.pack (TestCodec.result_obj 3)
  = Some (TestCodec.frame_of (TestCodec.result_obj 3))
  /\ decode_frame (TestCodec.frame_of (TestCodec.result_obj 3))
     = Some (Result 3)
  /\ Buf.concat
       (TestCodec.one_byte_chunks (TestCodec.frame_of (TestCodec.result_obj 3)))
     = TestCodec.frame_of (TestCodec.result_obj 3)
  /\ protocol.feed record_msg 64 protocol.makeParser []
       (TestCodec.one_byte_chunks (TestCodec.frame_of (TestCodec.result_obj 3)))
     = Threw RangeError (protocol.makeParser, []).
Proof.
  repeat split; vm_compute; reflexivity.
Qed.

(** The header cut in two: the second half of the header is taken for
    payload, and the message is never delivered. *)
Example split_header_misframes :
  let frame := TestCodec.frame_of (TestCodec.result_obj 3) in
  protocol.feed record_msg 64 protocol.makeParser []
    [firstn 8 frame; skipn 8 frame]
  = Threw PlistError
      (parsed (Buffer_toString (firstn 28 (skipn 8 frame))), []).
Proof. vm_compute. reflexivity. Qed.

(** Two frames in one chunk take two nested calls. *)
Example two_frames_overflow_one_call :
  protocol.parse record_msg 1 protocol.makeParser []
    (Buf.concat [TestCodec.frame_of (TestCodec.result_obj 3);
                 TestCodec.frame_of (TestCodec.result_obj 0)])
  = Threw StackOverflow
      (parsed (plist_build (TestCodec.result_obj 3)), [Result 3]).
Proof. vm_compute. reflexivity. Qed.

(** A header that announces fewer than 16 bytes: the recursive call finds
    the same state and the same data, and the stack runs out whatever its
    size. *)
Example short_length_never_returns :
  forall stack : nat,
    exists st,
      protocol.parse record_msg stack protocol.makeParser []
        [x0c; x00; x00; x00; x01; x00; x00; x00;
         x08; x00; x00; x00; x01; x00; x00; x00; x41; x42; x43; x44; x45]
      = Threw StackOverflow (st, []).
Proof.
  intros [| [| stack]].
  - eexists. reflexivity.
  - eexists. vm_compute. reflexivity.
  - exists {| protocol.len := Some (-5); protocol.msg := "A" |}.
    simpl protocol.parse.
    change (protocol.parse record_msg stack
              {| protocol.len := Some (-5); protocol.msg := "A" |} []
              [x42; x43; x44; x45]
            = Threw StackOverflow
                ({| protocol.len := Some (-5); protocol.msg := "A" |}, [])).
    induction stack as [| stack IH]; [reflexivity |].
    rewrite parse_S. exact IH.
Qed.

Lemma chunked_frame_parses_witness :
  let frame := TestCodec.frame_of (TestCodec.result_obj 3) in
  protocol.feed record_msg 1 protocol.makeParser []
    [firstn 16 frame; firstn 5 (skipn 16 frame); skipn 21 frame]
  = Returned (parsed (Buffer_toString (Buf.subarray_from frame 16)),
              [Result 3]).
Proof.
  apply (@chunked_frame_parses TestCodec.codec _ record_msg
           (TestCodec.result_obj 3) _ (Result 3) _ _ 1%nat []).
  - reflexivity.
  - vm_compute. discriminate.
  - reflexivity.
  - reflexivity.
  - vm_compute. discriminate.
  - repeat constructor; vm_compute; discriminate.
  - reflexivity.
  - lia.
Defined.

Lemma two_frames_in_one_chunk_witness :
  protocol.parse record_msg 2 protocol.makeParser []
    (Buf.concat [TestCodec.frame_of (TestCodec.result_obj 3);
                 TestCodec.frame_of (TestCodec.result_obj 0)])
  = Returned (parsed (plist_build (TestCodec.result_obj 0)),
              [Result 3; Result 0]).
Proof.
  apply (@two_frames_in_one_chunk TestCodec.codec _ record_msg
           (TestCodec.result_obj 3) (TestCodec.result_obj 0) _ _
           (Result 3) (Result 0) 2%nat []).
  - reflexivity.
  - reflexivity.
  - vm_compute. discriminate.
  - vm_compute. discriminate.
  - reflexivity.
  - reflexivity.
  - lia.
Defined.

End ParserExamples.

(* ------------------------------------------------------------------ *)
(** ** Facts about objects used as maps *)

Module JsObjectFacts.

Section Facts.
Context {V : Type}.
Implicit Types (o : JsObject.obj V) (k : string) (v : V).


Lemma get_delete_same k o : JsObject.get k (JsObject.delete k o) = None.
Proof.
  induction o as [| [k' v'] o IH]; simpl; [reflexivity |].
  destruct (String.eqb k k') eqn:E; simpl; [exact IH |].
  now rewrite E.
Qed.

Lemma get_delete_other k k' o :
  k <> k' -> JsObject.get k (JsObject.delete k' o) = JsObject.get k o.
Proof.
  intros Hne.
  induction o as [| [k0 v0] o IH]; simpl; [reflexivity |].
  destruct (String.eqb k' k0) eqn:E; simpl.
  - apply String.eqb_eq in E. subst k0.
    replace (String.eqb k k') with false
      by (symmetry; apply String.eqb_neq; exact Hne).
    exact IH.
  - destruct (String.eqb k k0); [reflexivity | exact IH].
Qed.


Lemma get_some_in k v o : JsObject.get k o = Some v -> In k (map fst o).
Proof.
  induction o as [| [k' v'] o IH]; simpl; [discriminate |].
  destruct (String.eqb k k') eqn:E.
  - apply String.eqb_eq in E. now left.
  - intros H. right. now apply IH.
Qed.

Lemma get_none_not_in k o : JsObject.get k o = None -> ~ In k (map fst o).
Proof.
  induction o as [| [k' v'] o IH]; simpl; [tauto |].
  destruct (String.eqb k k') eqn:E; [discriminate |].
  apply String.eqb_neq in E.
  intros H [Heq | Hin]; [congruence | now apply IH].
Qed.

Lemma in_insert_index (e x : N * string) (l : list (N * string)) :
  In x (JsObject.insert_index e l) <-> x = e \/ In x l.
Proof.
  induction l as [| y l IH]; simpl.
  - intuition.
  - destruct (fst e <=? fst y)%N; simpl; [intuition | rewrite IH; intuition].
Qed.

Lemma in_index_keys k o :
  In k (map snd (JsObject.index_keys o))
  <-> In k (map fst o) /\ JsObject.is_index k = true.
Proof.
  unfold JsObject.is_index.
  induction o as [| [k' v'] o IH]; simpl; [tauto |].
  destruct (JsObject.array_index k') as [n |] eqn:E.
  - rewrite in_map_iff. split.
    + intros ([n0 k0] & Hk & Hin). simpl in Hk. subst k0.
      apply in_insert_index in Hin as [Heq | Hin].
      * inversion Heq; subst. rewrite E. split; [now left | reflexivity].
      * assert (In k (map snd (JsObject.index_keys o)))
          by (apply in_map_iff; now exists (n0, k)).
        apply IH in H. tauto.
    + intros [[-> | Hin] Hidx].
      * exists (n, k). split; [reflexivity |].
        apply in_insert_index. now left.
      * assert (In k (map snd (JsObject.index_keys o))) as Hk
          by (apply IH; tauto).
        apply in_map_iff in Hk as ([n0 k0] & Hk & Hk'). simpl in Hk. subst k0.
        exists (n0, k). split; [reflexivity |].
        apply in_insert_index. now right.
  - rewrite IH. split.
    + tauto.
    + intros [[-> | Hin] Hidx]; [rewrite E in Hidx; discriminate | tauto].
Qed.

(** [Object.keys] lists exactly the own properties. *)
Lemma in_keys k o : In k (JsObject.keys o) <-> In k (map fst o).
Proof.
  unfold JsObject.keys, JsObject.name_keys.
  rewrite in_app_iff, in_index_keys, filter_In.
  destruct (JsObject.is_index k); simpl; intuition congruence.
Qed.


(** The names of an object are distinct, and stay so. *)
Lemma set_names k v o :
  map fst (JsObject.set k v o)
  = if existsb (String.eqb k) (map fst o) then map fst o
    else map fst o ++ [k].
Proof.
  induction o as [| [k' v'] o IH]; simpl; [reflexivity |].
  destruct (String.eqb k k') eqn:E; simpl.
  - apply String.eqb_eq in E. now subst.
  - rewrite IH. now destruct (existsb (String.eqb k) (map fst o)).
Qed.

Lemma set_distinct k v o :
  NoDup (map fst o) -> NoDup (map fst (JsObject.set k v o)).
Proof.
  intros Hnd. rewrite set_names.
  destruct (existsb (String.eqb k) (map fst o)) eqn:E; [exact Hnd |].
  apply NoDup_app; [exact Hnd | |].
  - repeat constructor. simpl. tauto.
  - intros x Hx [Heq | []]. subst x.
    assert (existsb (String.eqb k) (map fst o) = true) as Habs.
    { apply existsb_exists. exists k. split; [exact Hx |].
      apply String.eqb_refl. }
    congruence.
Qed.

Lemma delete_names k o :
  map fst (JsObject.delete k o)
  = filter (fun x => negb (String.eqb k x)) (map fst o).
Proof.
  unfold JsObject.delete.
  induction o as [| [k' v'] o IH]; simpl; [reflexivity |].
  destruct (String.eqb k k'); simpl; now rewrite IH.
Qed.

Lemma delete_distinct k o :
  NoDup (map fst o) -> NoDup (map fst (JsObject.delete k o)).
Proof.
  intros Hnd. rewrite delete_names. now apply NoDup_filter.
Qed.

Lemma insert_index_perm (e : N * string) (l : list (N * string)) :
  Permutation (JsObject.insert_index e l) (e :: l).
Proof.
  induction l as [| x l IH]; simpl; [reflexivity |].
  destruct (fst e <=? fst x)%N; [reflexivity |].
  rewrite IH. apply perm_swap.
Qed.

Lemma index_keys_distinct o :
  NoDup (map fst o) -> NoDup (map snd (JsObject.index_keys o)).
Proof.
  induction o as [| [k v] o IH]; simpl; intros Hnd; [constructor |].
  inversion Hnd as [| ? ? Hk Ho]; subst.
  destruct (JsObject.array_index k) as [n |]; [| now apply IH].
  apply (Permutation_NoDup
           (l := k :: map snd (JsObject.index_keys o))).
  - symmetry.
    apply (Permutation_map snd (insert_index_perm (n, k) _)).
  - constructor; [| now apply IH].
    intros Hin. apply in_index_keys in Hin. tauto.
Qed.

(** [Object.keys] lists every own property once. *)
Lemma keys_distinct o : NoDup (map fst o) -> NoDup (JsObject.keys o).
Proof.
  intros Hnd. unfold JsObject.keys.
  apply NoDup_app; [now apply index_keys_distinct | |].
  - unfold JsObject.name_keys. now apply NoDup_filter.
  - intros x Hidx Hname.
    apply in_index_keys in Hidx as [_ Hidx].
    unfold JsObject.name_keys in Hname.
    apply filter_In in Hname as [_ Hname].
    rewrite Hidx in Hname. discriminate.
Qed.

End Facts.

End JsObjectFacts.

(* ------------------------------------------------------------------ *)
(** ** The listener and the registry *)

Section DetachLoop.
Variable id : Z.



(** Visiting a key leaves the other keys as they are. *)
Lemma detach_key_other (w : ListenerWorld) (key k : string) :
  k <> key ->
  JsObject.get k (devices (detach_key id w key)) = JsObject.get k (devices w).
Proof.
  intros Hne. unfold detach_key.
  destruct (JsObject.get key (devices w)) as [d |]; [| reflexivity].
  destruct (DeviceID d =? id); [| reflexivity].
  simpl. now apply JsObjectFacts.get_delete_other.
Qed.



(** The loop keeps the names of the registry distinct. *)
Lemma detach_loop_distinct (ks : list string) :
  forall w,
    NoDup (map fst (devices w)) ->
    NoDup (map fst (devices (fold_left (detach_key id) ks w))).
Proof.
  induction ks as [| k ks IH]; intros w Hnd; simpl; [exact Hnd |].
  apply IH. unfold detach_key.
  destruct (JsObject.get k (devices w)) as [d |]; [| exact Hnd].
  destruct (DeviceID d =? id); [| exact Hnd].
  simpl. now apply JsObjectFacts.delete_distinct.
Qed.

(** On a snapshot of distinct keys that are all in the registry, every
    lookup of the loop finds its key. *)
Lemma detach_loop_defined (ks : list string) :
  forall w,
    NoDup ks ->
    (forall k, In k ks -> JsObject.get k (devices w) <> None) ->
    lookups_defined id ks w = true.
Proof.
  induction ks as [| k0 ks IH]; intros w Hnd Hall; [reflexivity |].
  inversion Hnd as [| ? ? Hk0 Hks]; subst.
  simpl.
  destruct (JsObject.get k0 (devices w)) eqn:E.
  - apply IH; [exact Hks |].
    intros k Hk. rewrite detach_key_other.
    + apply Hall. now right.
    + intros ->. contradiction.
  - exfalso. apply (Hall k0); [now left | exact E].
Qed.

End DetachLoop.

(** The loop of the Detached handler never reads a missing entry. *)
Lemma detached_lookups_defined (id : Z) (w : ListenerWorld) :
  NoDup (map fst (devices w)) ->
  lookups_defined id (JsObject.keys (devices w)) w = true.
Proof.
  intros Hnd. apply detach_loop_defined.
  - now apply JsObjectFacts.keys_distinct.
  - intros k Hk Hnone.
    apply JsObjectFacts.in_keys in Hk.
    now apply JsObjectFacts.get_none_not_in in Hnone.
Qed.

(** The handler keeps the names of the registry distinct. *)
Lemma listener_keeps_distinct (conn : Socket) (m : UsbMuxPlist)
  (w : ListenerWorld) :
  NoDup (map fst (devices w)) ->
  NoDup (map fst (devices (listener_onMsgComplete conn m w))).
Proof.
  intros Hnd. unfold listener_onMsgComplete.
  destruct m as [n | n props | n id]; simpl.
  - destruct (n =? 0); exact Hnd.
  - now apply JsObjectFacts.set_distinct.
  - now apply detach_loop_distinct.
Qed.


(* ------------------------------------------------------------------ *)
(** ** The relay *)




Section RelayExamples.
#[local] Existing Instance TestCodec.codec.


(** A device comes and goes: the two notifications, each with the
    registry the listeners see. *)
Example attach_detach_trace :
  let d := TestCodec.usb 19 "22226dd59aaac687f555f8521f8ffddac32d394b" in
  listener_onMsgComplete 0%nat (Detached 0 19)
    (listener_onMsgComplete 0%nat (Attached 0 d)
       {| devices := devices0; ltrace := [] |})
  = {| devices := devices0;
       ltrace := [Emit "attached" (DUdid (SerialNumber d))
                    [(SerialNumber d, d)];
                  Emit "detached" (DUdid (SerialNumber d))
                    [(SerialNumber d, d)]] |}.
Proof. vm_compute. reflexivity. Qed.


End RelayExamples.

(* ------------------------------------------------------------------ *)
(** ** The tunnel connector *)

(** A [UsbmuxdError] built with a code other than zero carries the code. *)
Lemma UsbmuxdError_number (m : string) (code : Z) :
  code <> 0 ->
  number (UsbmuxdError m code) = Some code
  /\ err_class (UsbmuxdError m code) = UsbmuxdErrorClass.
Proof.
  intros Hcode. unfold UsbmuxdError, JsNum.truthy. simpl.
  replace (code =? 0) with false by (symmetry; apply Z.eqb_neq; exact Hcode).
  split; reflexivity.
Qed.

Section ConnectFacts.
Context {codec : Codec}.

(** C3. [connect] on a fresh connection, then the request written and one
    frame received that decodes to a Result.  With code zero the data
    listener is removed and the promise is resolved with that same
    connection, which is not ended, and a later chunk is no longer parsed.
    With another code the promise is rejected with a [UsbmuxdError]
    carrying the code, and then the connection is ended. *)
Theorem connect_awaits_result (fresh : Socket) (deviceID devicePort : Z)
  (req frame payload : Buffer) (code : Z) (stack : nat) :
  protocol.connect deviceID devicePort = Some req ->
  framed frame payload ->
  payload <> [] ->
  decode_frame frame = Some (Result code) ->
  (1 <= stack)%nat ->
  exists t,
    tunnel_run stack (connect fresh deviceID devicePort)
      [NextTick; Data frame] = Returned t
    /\ conn t = fresh
    /\ (code = 0 ->
        world t
        = {| parsing := false;
             ctrace := [SocketWrite fresh req; RemoveDataListener fresh;
                        Settle (ResolvedSocket fresh)] |}
        /\ settled (ctrace (world t)) = Some (ResolvedSocket fresh)
        /\ ended fresh (ctrace (world t)) = false
        /\ forall chunk, tunnel_step stack t (Data chunk) = Returned t)
    /\ (code <> 0 ->
        world t
        = {| parsing := true;
             ctrace := [SocketWrite fresh req;
                        Settle (Rejected (UsbmuxdError "Tunnel failed" code));
                        SocketEnd fresh] |}
        /\ settled (ctrace (world t))
           = Some (Rejected (UsbmuxdError "Tunnel failed" code))
        /\ number (UsbmuxdError "Tunnel failed" code) = Some code
        /\ ended fresh (ctrace (world t)) = true).
Proof.
  intros Hreq Hframed Hne Hdec Hstack.
  unfold decode_frame in Hdec.
  rewrite (framed_payload _ _ Hframed) in Hdec.
  destruct Hframed as (hdr & -> & Hhdr & Hread).
  destruct stack as [| k]; [lia |].
  set (w0 := {| parsing := true; ctrace := [SocketWrite fresh req] |}).
  assert (Hparse :
            protocol.parse (connect_onMsgComplete fresh) (S k)
              protocol.makeParser w0 (hdr ++ payload)
            = Returned (parsed (Buffer_toString payload),
                        connect_onMsgComplete fresh (Result code) w0)).
  { replace (hdr ++ payload) with (hdr ++ payload ++ [])
      by now rewrite app_nil_r.
    rewrite (parse_frame _ k _ _ hdr payload [] (Result code));
      try assumption; try reflexivity.
    apply Hread. }
  exists {| conn := fresh; request := Some req;
            pstate := parsed (Buffer_toString payload);
            world := connect_onMsgComplete fresh (Result code) w0 |}.
  split.
  { unfold connect. rewrite Hreq.
    cbn [tunnel_run tunnel_step request conn pstate world parsing ctrace app].
    fold w0. rewrite Hparse. reflexivity. }
  split; [reflexivity |].
  cbn [world].
  split.
  - intros ->. cbn.
    repeat split.
  - intros Hcode.
    assert (Hw : connect_onMsgComplete fresh (Result code) w0
                 = {| parsing := true;
                      ctrace := [SocketWrite fresh req;
                                 Settle (Rejected
                                   (UsbmuxdError "Tunnel failed" code));
                                 SocketEnd fresh] |}).
    { destruct code; [congruence | reflexivity | reflexivity]. }
    rewrite Hw. cbn [ctrace].
    split; [reflexivity |].
    split; [reflexivity |].
    split; [apply UsbmuxdError_number; exact Hcode |].
    cbn. now rewrite Nat.eqb_refl.
Qed.

End ConnectFacts.

Section ConnectExamples.
#[local] Existing Instance TestCodec.codec.

Lemma connect_awaits_result_witness :
  exists t,
    tunnel_run 1 (connect 4%nat 7 22)
      [NextTick; Data (TestCodec.frame_of (TestCodec.result_obj 3))]
    = Returned t
    /\ settled (ctrace (world t))
       = Some (Rejected (UsbmuxdError "Tunnel failed" 3))
    /\ ended 4%nat (ctrace (world t)) = true.
Proof.
  destruct (@connect_awaits_result TestCodec.codec 4%nat 7 22
              (TestCodec.frame_of (protocol.connect_payload 7 22))
              (TestCodec.frame_of (TestCodec.result_obj 3))
              (Buffer_from (plist_build (TestCodec.result_obj 3)))
              3 1%nat)
    as (t & Hrun & _ & _ & Hfail).
  - reflexivity.
  - apply pack_framed. reflexivity.
  - vm_compute. discriminate.
  - reflexivity.
  - lia.
  - exists t. split; [exact Hrun |].
    destruct Hfail as (_ & Hsettled & _ & Hended); [lia |].
    split; assumption.
Defined.

End ConnectExamples.

(* ------------------------------------------------------------------ *)
(** ** The device finder and the timeouts *)

(** Notifications for other devices leave the finder as it is. *)
Lemma finder_run_ignored (f : Finder) (pre post : list FinderEvent) :
  forallb (ignored (f_opts f)) pre = true ->
  finder_run f (pre ++ post) = finder_run f post.
Proof.
  induction pre as [| e pre IH]; intros Hpre; [reflexivity |].
  simpl in Hpre. apply andb_prop in Hpre as [He Hpre].
  destruct e as [| u seen]; [discriminate |].
  simpl in He. simpl. rewrite He. now apply IH.
Qed.

(** C8. When the timer of [findDevice] expires and nothing but
    notifications for other devices came before, the listener is ended and
    the promise is rejected: with "Requested device not connected" when a
    UDID was given, with "No devices connected" otherwise. *)
Theorem findDevice_times_out (listener : Socket) (opts : option RelayOpts)
  (pre : list FinderEvent) :
  forallb (ignored (opts_or_empty opts)) pre = true ->
  exists f,
    finder_run (findDevice listener opts) (pre ++ [TimerExpires])
    = Returned f
    /\ f_trace f
       = [SetTimeout (JsNum.or_default (timeout (opts_or_empty opts)) 1000);
          SocketEnd listener;
          Settle (Rejected
            (Error (if given (udid (opts_or_empty opts))
                    then "Requested device not connected"
                    else "No devices connected")))]
    /\ ended listener (f_trace f) = true
    /\ settled (f_trace f)
       = Some (Rejected
           (Error (if given (udid (opts_or_empty opts))
                   then "Requested device not connected"
                   else "No devices connected"))).
Proof.
  intros Hpre.
  rewrite finder_run_ignored by exact Hpre.
  eexists. split; [reflexivity |].
  cbn. rewrite Nat.eqb_refl. repeat split.
Qed.

Lemma findDevice_times_out_witness :
  exists f,
    finder_run
      (findDevice 3%nat
         (Some {| timeout := Some 50; udid := Some "ABC"%string |}))
      [AttachedEvent "XYZ" [("XYZ"%string, TestCodec.usb 7 "XYZ")];
       TimerExpires]
    = Returned f
    /\ settled (f_trace f)
       = Some (Rejected (Error "Requested device not connected")).
Proof.
  destruct (findDevice_times_out 3%nat
              (Some {| timeout := Some 50; udid := Some "ABC"%string |})
              [AttachedEvent "XYZ" [("XYZ"%string, TestCodec.usb 7 "XYZ")]]
              eq_refl)
    as (f & Hrun & _ & _ & Hsettled).
  exists f. split; [exact Hrun | exact Hsettled].
Defined.

(** C10. A timeout of 0 is taken as no timeout: the watchdog of the relay
    and the timer of [findDevice] are armed with 1000 when the option is 0
    or absent. *)
Theorem zero_timeout_is_default (devicePort relayPort : Z)
  (listener : Socket) (opts : option RelayOpts) :
  timeout (opts_or_empty opts) = None
  \/ timeout (opts_or_empty opts) = Some 0 ->
  snd (Relay_new devicePort relayPort opts) = [SetTimeout 1000]
  /\ f_trace (findDevice listener opts) = [SetTimeout 1000].
Proof.
  intros Hopt.
  unfold Relay_new, _startListener, findDevice. simpl.
  destruct Hopt as [-> | ->]; split; reflexivity.
Qed.

Lemma zero_timeout_is_default_witness :
  snd (Relay_new 22 2222 (Some {| timeout := Some 0; udid := None |}))
  = [SetTimeout 1000]
  /\ f_trace (findDevice 3%nat (Some {| timeout := Some 0; udid := None |}))
     = [SetTimeout 1000].
Proof.
  apply (zero_timeout_is_default 22 2222 3%nat
           (Some {| timeout := Some 0; udid := None |})).
  right. reflexivity.
Defined.

(* ================================================================== *)
(** * Further properties of the code *)

(* ------------------------------------------------------------------ *)
(** ** The frame builder *)

Section PackFacts.
Context {codec : Codec}.

(** The bytes [pack] returns, written out. *)
Lemma pack_bytes (obj : PlistValue) (frame : Buffer) :
  protocol.pack obj = Some frame ->
  let payload := Buffer_from (plist_build obj) in
  let total := Buf.length payload + 16 in
  0 <= total <= 4294967295
  /\ frame
     = [Buf.byte_of_Z total; Buf.byte_of_Z (total / 256);
        Buf.byte_of_Z (total / 65536); Buf.byte_of_Z (total / 16777216);
        Buf.byte_of_Z 1; Buf.byte_of_Z (1 / 256);
        Buf.byte_of_Z (1 / 65536); Buf.byte_of_Z (1 / 16777216);
        Buf.byte_of_Z 8; Buf.byte_of_Z (8 / 256);
        Buf.byte_of_Z (8 / 65536); Buf.byte_of_Z (8 / 16777216);
        Buf.byte_of_Z 1; Buf.byte_of_Z (1 / 256);
        Buf.byte_of_Z (1 / 65536); Buf.byte_of_Z (1 / 16777216)]
       ++ payload.
Proof.
  unfold protocol.pack.
  set (payload := Buffer_from (plist_build obj)).
  set (total := Buf.length payload + 16).
  change (Buf.fill (Buf.alloc 16) x00) with (repeat x00 16).
  destruct (Buf.writeUInt32LE (repeat x00 16) total 0) as [h1 |] eqn:E1;
    [| discriminate].
  apply BufFacts.write_inv in E1 as [Hrange ->].
  cbn -[Z.div Buf.byte_of_Z].
  intros [= <-].
  split; [exact Hrange |].
  unfold Buf.concat. simpl. rewrite app_nil_r. reflexivity.
Qed.

(** X1. The layout of a packed frame: it is 16 bytes longer than the
    payload; its four little-endian words are its own total length, then
    1, 8 and 1; and the payload follows the header unchanged. *)
Theorem pack_layout (obj : PlistValue) (frame : Buffer) :
  protocol.pack obj = Some frame ->
  Buf.length frame = Buf.length (Buffer_from (plist_build obj)) + 16
  /\ Buf.readUInt32LE frame 0 = Some (Buf.length frame)
  /\ Buf.readUInt32LE frame 4 = Some 1
  /\ Buf.readUInt32LE frame 8 = Some 8
  /\ Buf.readUInt32LE frame 12 = Some 1
  /\ Buf.subarray_from frame 16 = Buffer_from (plist_build obj).
Proof.
  intros Hpack.
  pose proof (pack_framed _ _ Hpack) as Hframed.
  apply pack_bytes in Hpack as [Hrange ->].
  set (payload := Buffer_from (plist_build obj)) in *.
  set (total := Buf.length payload + 16) in *.
  pose proof (BufFacts.length_nonneg payload) as Hpos.
  match goal with |- context [?h ++ payload] => set (hdr := h) in * end.
  assert (Hh : List.length hdr = 16%nat) by reflexivity.
  assert (Hlen : Buf.length (hdr ++ payload) = total).
  { rewrite BufFacts.length_app. unfold Buf.length at 1.
    rewrite Hh. unfold total. lia. }
  assert (Hcond : forall off,
             0 <= off <= 12 ->
             (0 <=? off) && (off + 4 <=? Buf.length (hdr ++ payload)) = true).
  { intros off Hoff. rewrite Hlen.
    apply andb_true_intro. split; apply Z.leb_le; unfold total; lia. }
  split; [exact Hlen |].
  split.
  { rewrite Hlen.
    unfold Buf.readUInt32LE. rewrite Hcond by lia. unfold hdr.
    cbn -[Z.div Buf.byte_of_Z Buf.Z_of_byte Z.add Z.mul].
    rewrite !BufFacts.Z_of_byte_of_Z.
    f_equal. apply BufFacts.u32_of_bytes. exact Hrange. }
  split; [| split; [| split]].
  - unfold Buf.readUInt32LE. rewrite Hcond by lia. unfold hdr.
    change (Z.to_nat 4) with 4%nat. cbn [skipn app].
    rewrite !BufFacts.Z_of_byte_of_Z. reflexivity.
  - unfold Buf.readUInt32LE. rewrite Hcond by lia. unfold hdr.
    change (Z.to_nat 8) with 8%nat. cbn [skipn app].
    rewrite !BufFacts.Z_of_byte_of_Z. reflexivity.
  - unfold Buf.readUInt32LE. rewrite Hcond by lia. unfold hdr.
    change (Z.to_nat 12) with 12%nat. cbn [skipn app].
    rewrite !BufFacts.Z_of_byte_of_Z. reflexivity.
  - exact (framed_payload _ _ Hframed).
Qed.

(** X2. [pack] throws exactly when the payload is too long for the
    length to fit the 32-bit field of the header. *)
Theorem pack_throws_iff (obj : PlistValue) :
  protocol.pack obj = None
  <-> 4294967295 < Buf.length (Buffer_from (plist_build obj)) + 16.
Proof.
  unfold protocol.pack.
  set (payload := Buffer_from (plist_build obj)).
  set (total := Buf.length payload + 16).
  pose proof (BufFacts.length_nonneg payload) as Hpos.
  change (Buf.fill (Buf.alloc 16) x00) with (repeat x00 16).
  unfold Buf.writeUInt32LE at 1.
  change (Buf.length (repeat x00 16)) with 16.
  destruct (total <=? 4294967295) eqn:E.
  - apply Z.leb_le in E.
    replace (0 <=? total) with true by (symmetry; apply Z.leb_le; lia).
    cbn -[Z.div Buf.byte_of_Z].
    split; [discriminate | lia].
  - apply Z.leb_gt in E.
    rewrite andb_false_r. simpl.
    split; [intros _; exact E | reflexivity].
Qed.

End PackFacts.

(** X3. On every integer [byteSwap16] yields a 16-bit value that depends
    on the low 16 bits of its argument only, and applying it twice gives
    those low 16 bits back. *)
Theorem byteSwap16_low_bits (v : Z) :
  0 <= protocol.byteSwap16 v < 65536
  /\ protocol.byteSwap16 v = protocol.byteSwap16 (v mod 65536)
  /\ protocol.byteSwap16 (protocol.byteSwap16 v) = v mod 65536.
Proof.
  rewrite !byteSwap16_bytes.
  Z.div_mod_to_equations. lia.
Qed.

(* ------------------------------------------------------------------ *)
(** ** The parser at its edges *)

Module BufEdges.

(** [subarray(n)] beyond the end is empty. *)
Lemma subarray_from_past (a : Buffer) (n : Z) :
  Buf.length a <= n -> Buf.subarray_from a n = [].
Proof.
  intros Hn. unfold Buf.subarray_from, Buf.subarray, Buf.clamp_index.
  pose proof (BufFacts.length_nonneg a) as Ha.
  destruct (n <? 0) eqn:E0; [apply Z.ltb_lt in E0; lia |].
  destruct (Buf.length a <? 0) eqn:E1; [apply Z.ltb_lt in E1; lia |].
  rewrite (Z.min_r n) by lia. rewrite Z.min_id, Z.sub_diag.
  reflexivity.
Qed.

(** [subarray(0)] is the whole buffer. *)
Lemma subarray_from_zero (a : Buffer) : Buf.subarray_from a 0 = a.
Proof.
  change 0 with (Buf.length (@nil byte)).
  apply (BufFacts.subarray_from_app [] a).
Qed.

(** [subarray(0, l)] for a negative [l] drops the last [-l] bytes. *)
Lemma subarray_neg (a : Buffer) (l : Z) :
  l < 0 ->
  Buf.subarray a 0 l = firstn (Z.to_nat (Buf.length a + l)) a.
Proof.
  intros Hl. unfold Buf.subarray, Buf.clamp_index.
  pose proof (BufFacts.length_nonneg a) as Ha.
  replace (l <? 0) with true by (symmetry; apply Z.ltb_lt; lia).
  change (0 <? 0) with false. cbv iota.
  rewrite (Z.min_l 0) by lia. rewrite Z.sub_0_r.
  simpl skipn. f_equal.
  destruct (Z.le_gt_cases 0 (Buf.length a + l)).
  - now rewrite !Z.max_l by lia.
  - rewrite (Z.max_r (Buf.length a + l)) by lia.
    rewrite Z.max_id. simpl.
    destruct (Buf.length a + l); try reflexivity; lia.
Qed.

Lemma length_firstn (a : Buffer) (n : Z) :
  Buf.length (firstn (Z.to_nat n) a) = Z.max 0 (Z.min n (Buf.length a)).
Proof.
  unfold Buf.length. rewrite List.length_firstn. lia.
Qed.

(** What [subarray(n)] leaves, for [n] within the buffer. *)
Lemma length_subarray_from (a : Buffer) (n : Z) :
  0 <= n <= Buf.length a ->
  Buf.length (Buf.subarray_from a n) = Buf.length a - n.
Proof.
  intros Hn. unfold Buf.subarray_from, Buf.subarray, Buf.clamp_index.
  pose proof (BufFacts.length_nonneg a) as Ha.
  replace (n <? 0) with false by (symmetry; apply Z.ltb_ge; lia).
  replace (Buf.length a <? 0) with false by (symmetry; apply Z.ltb_ge; lia).
  rewrite (Z.min_l n) by lia. rewrite Z.min_id.
  rewrite Z.max_l by lia.
  unfold Buf.length in *.
  rewrite List.length_firstn, List.length_skipn. lia.
Qed.

End BufEdges.

Section ParserEdges.
Context {codec : Codec} {W : Type}.
Variable onComplete : UsbMuxPlist -> W -> W.

(** Chunks handled one after the other. *)
Lemma feed_app (stack : nat) (a b : list Buffer) :
  forall (st : protocol.ParserState) (w : W),
    protocol.feed onComplete stack st w (a ++ b)
    = match protocol.feed onComplete stack st w a with
      | Returned (st', w') => protocol.feed onComplete stack st' w' b
      | Threw e x => Threw e x
      end.
Proof.
  induction a as [| c a IH]; intros st w; simpl; [reflexivity |].
  destruct (protocol.parse onComplete stack st w c) as [[st' w'] | e x];
    [apply IH | reflexivity].
Qed.

(** [parse_header] for any announced length other than the header's. *)
Lemma parse_header_nz (k : nat) (st : protocol.ParserState) (w : W)
  (hdr d : Buffer) (n : Z) :
  protocol.len_falsy st = true ->
  List.length hdr = 16%nat ->
  Buf.readUInt32LE (hdr ++ d) 0 = Some (n + 16) ->
  n <> 0 ->
  d <> [] ->
  protocol.parse onComplete (S k) st w (hdr ++ d)
  = protocol.parse onComplete (S k)
      {| protocol.len := Some n; protocol.msg := EmptyString |} w d.
Proof.
  intros Hfresh Hhdr Hread Hn Hd.
  assert (Hskip : Buf.subarray_from (hdr ++ d) 16 = d).
  { replace 16 with (Buf.length hdr) by (unfold Buf.length; lia).
    apply BufFacts.subarray_from_app. }
  assert (Hbusy : protocol.len_falsy
                    {| protocol.len := Some n;
                       protocol.msg := EmptyString |} = false).
  { unfold protocol.len_falsy, JsNum.truthy. simpl.
    replace (n =? 0) with false by (symmetry; apply Z.eqb_neq; lia).
    reflexivity. }
  rewrite parse_S, Hfresh, Hread, Hskip.
  replace (n + 16 - 16) with n by lia.
  rewrite (parse_S onComplete k
             {| protocol.len := Some n; protocol.msg := EmptyString |}), Hbusy.
  replace (Buf.length d =? 0) with false; [reflexivity |].
  symmetry. apply Z.eqb_neq. rewrite BufFacts.length_zero. exact Hd.
Qed.

(** X5. More frames in one chunk than the call stack has room for: the
    callback runs for as many frames as there are calls, in order, and
    then the handler dies of stack exhaustion; the later frames are not
    delivered. *)
Theorem frames_beyond_stack (fs : list (Buffer * Buffer * UsbMuxPlist)) :
  forall (stack : nat) (st : protocol.ParserState) (w : W),
    Forall (fun f => well_framed (fst (fst f)) (snd (fst f)) (snd f)) fs ->
    (stack < List.length fs)%nat ->
    protocol.len_falsy st = true ->
    exists st',
      protocol.parse onComplete stack st w (frames_bytes fs)
      = Threw StackOverflow (st', deliver onComplete (firstn stack fs) w).
Proof.
  induction fs as [| [[hdr p] m] fs IH]; intros stack st w Hall Hstack Hst;
    [simpl in Hstack; lia |].
  destruct stack as [| k]; [exists st; reflexivity |].
  inversion Hall as [| ? ? Hf Hfs]; subst.
  destruct Hf as (Hhdr & Hp & Hread & Hm). simpl in Hhdr, Hp, Hread, Hm.
  unfold frames_bytes. simpl map. simpl List.concat. rewrite <- app_assoc.
  fold (frames_bytes fs).
  rewrite (parse_frame onComplete k st w hdr p (frames_bytes fs) m);
    try assumption; [| apply Hread].
  simpl in Hstack.
  destruct fs as [| f fs']; [simpl in Hstack; lia |].
  assert (Hrest : exists b t, frames_bytes (f :: fs') = b :: t).
  { inversion Hfs as [| ? ? Hf' _]; subst.
    destruct Hf' as (Hh' & _).
    destruct f as [[h' p'] m']. simpl in Hh'.
    unfold frames_bytes. simpl.
    destruct h' as [| b h'']; [discriminate |].
    exists b. eexists. reflexivity. }
  destruct Hrest as (b & t & Hbytes). rewrite Hbytes, <- Hbytes.
  destruct (IH k (parsed (Buffer_toString p)) (onComplete m w) Hfs)
    as [st' Hst']; [lia | reflexivity |].
  exists st'. rewrite Hst'. reflexivity.
Qed.

(** A message in chunks, handed to a parser that is between messages. *)
Lemma chunked_frame_idle (st : protocol.ParserState) (obj : PlistValue)
  (frame : Buffer) (m : UsbMuxPlist) (c0 : Buffer) (cs : list Buffer)
  (k : nat) (w : W) :
  protocol.len_falsy st = true ->
  protocol.pack obj = Some frame ->
  Buffer_from (plist_build obj) <> [] ->
  decode_frame frame = Some m ->
  Buf.concat (c0 :: cs) = frame ->
  16 <= Buf.length c0 ->
  Forall (fun c => c <> []) cs ->
  joined (payload_pieces c0 cs)
  = Buffer_toString (Buf.subarray_from frame 16) ->
  protocol.feed onComplete (S k) st w (c0 :: cs)
  = Returned (parsed (Buffer_toString (Buf.subarray_from frame 16)),
              onComplete m w).
Proof.
  intros Hidle Hpack Hne Hdec Hcat Hc0 Hcs Hjoin.
  apply pack_framed in Hpack.
  unfold decode_frame in Hdec.
  rewrite (framed_payload _ _ Hpack) in *.
  set (payload := Buffer_from (plist_build obj)) in *.
  destruct Hpack as (hdr & Hframe & Hhdr & Hread).
  assert (Hsplit : exists p0, c0 = hdr ++ p0 /\ payload = p0 ++ List.concat cs).
  { unfold Buf.concat in Hcat. simpl List.concat in Hcat.
    rewrite Hframe in Hcat.
    apply app_eq_app in Hcat as [x [[-> ->] | [-> Hx]]].
    - exists x. split; reflexivity.
    - assert (x = []) as ->.
      { unfold Buf.length in Hc0. rewrite List.length_app in Hhdr.
        destruct x; [reflexivity | simpl in Hhdr; lia]. }
      exists []. rewrite !app_nil_r. simpl in Hx.
      split; [reflexivity | symmetry; exact Hx]. }
  destruct Hsplit as (p0 & -> & Hpayload).
  assert (Hn : 0 < Buf.length payload).
  { pose proof (BufFacts.length_nonneg payload).
    assert (Buf.length payload <> 0)
      by (rewrite BufFacts.length_zero; exact Hne).
    lia. }
  rewrite (feed_header onComplete k _ w hdr p0 cs (Buf.length payload));
    [| exact Hidle | exact Hhdr | apply Hread | exact Hn].
  rewrite <- Hjoin.
  change (joined (payload_pieces (hdr ++ p0) cs))
    with (EmptyString +++ joined (payload_pieces (hdr ++ p0) cs)).
  assert (Hp0 : Buf.subarray_from (hdr ++ p0) 16 = p0).
  { replace 16 with (Buf.length hdr) by (unfold Buf.length; lia).
    apply BufFacts.subarray_from_app. }
  apply feed_body.
  - exact Hn.
  - unfold payload_pieces. rewrite Hp0.
    destruct p0; [exact Hcs |].
    constructor; [discriminate | exact Hcs].
  - unfold payload_pieces. rewrite Hp0, Hpayload.
    destruct p0; reflexivity.
  - simpl String.append. rewrite Hjoin. exact Hdec.
Qed.

(** X6. The parser can be used again after a message.  When the chunks
    so far left it between two messages, a further message that arrives
    in chunks (the first holding the header, the others not empty, none
    ending inside a character) is delivered once, after whatever was
    delivered before. *)
Theorem parser_ready_for_next (before : list Buffer)
  (st0 st1 : protocol.ParserState) (w0 w1 : W)
  (obj : PlistValue) (frame : Buffer) (m : UsbMuxPlist)
  (c0 : Buffer) (cs : list Buffer) (stack : nat) :
  protocol.feed onComplete stack st0 w0 before = Returned (st1, w1) ->
  protocol.len_falsy st1 = true ->
  protocol.pack obj = Some frame ->
  Buffer_from (plist_build obj) <> [] ->
  decode_frame frame = Some m ->
  Buf.concat (c0 :: cs) = frame ->
  16 <= Buf.length c0 ->
  Forall (fun c => c <> []) cs ->
  joined (payload_pieces c0 cs)
  = Buffer_toString (Buf.subarray_from frame 16) ->
  (1 <= stack)%nat ->
  protocol.feed onComplete stack st0 w0 (before ++ c0 :: cs)
  = Returned (parsed (Buffer_toString (Buf.subarray_from frame 16)),
              onComplete m w1).
Proof.
  intros Hbefore Hidle Hpack Hne Hdec Hcat Hc0 Hcs Hjoin Hstack.
  rewrite feed_app, Hbefore.
  destruct stack as [| k]; [lia |].
  now apply (chunked_frame_idle st1 obj frame m c0 cs k w1).
Qed.

(** X7. Between two messages a chunk of fewer than four bytes (an empty
    one included) makes the handler throw a RangeError: nothing is
    delivered, the state is as before, and the chunks that follow are not
    looked at. *)
Theorem short_chunk_throws (k : nat) (st : protocol.ParserState) (w : W)
  (c : Buffer) (cs : list Buffer) :
  protocol.len_falsy st = true ->
  Buf.length c < 4 ->
  protocol.feed onComplete (S k) st w (c :: cs) = Threw RangeError (st, w).
Proof.
  intros Hidle Hshort. cbn [protocol.feed].
  now rewrite parse_short_chunk.
Qed.

(** X8. Between two messages a chunk of 4 to 16 bytes is taken for a
    whole header: its first word, less 16, becomes the length still
    awaited, nothing is delivered, and the parser returns without
    waiting for the rest of the header. *)
Theorem short_header_accepted (k : nat) (st : protocol.ParserState) (w : W)
  (data : Buffer) (total : Z) :
  protocol.len_falsy st = true ->
  Buf.length data <= 16 ->
  Buf.readUInt32LE data 0 = Some total ->
  protocol.parse onComplete (S k) st w data
  = Returned ({| protocol.len := Some (total - 16);
                 protocol.msg := EmptyString |}, w).
Proof.
  intros Hidle Hlen Hread.
  rewrite parse_S, Hidle, Hread.
  rewrite BufEdges.subarray_from_past by exact Hlen.
  reflexivity.
Qed.

(** Inside a message whose remaining length is negative, [parse] never
    returns: each call hands the next one data that is not empty and a
    length that is still negative. *)
Lemma negative_length_overflows (stack : nat) :
  forall (l : Z) (t : string) (w : W) (d : Buffer),
    l < 0 ->
    d <> [] ->
    exists st',
      protocol.parse onComplete stack
        {| protocol.len := Some l; protocol.msg := t |} w d
      = Threw StackOverflow (st', w).
Proof.
  induction stack as [| k IH]; intros l t w d Hl Hd.
  - eexists. reflexivity.
  - assert (Hbusy : protocol.len_falsy
                      {| protocol.len := Some l; protocol.msg := t |} = false).
    { unfold protocol.len_falsy, JsNum.truthy. simpl.
      replace (l =? 0) with false by (symmetry; apply Z.eqb_neq; lia).
      reflexivity. }
    assert (Hdlen : 0 < Buf.length d).
    { pose proof (BufFacts.length_nonneg d).
      assert (Buf.length d <> 0) by (rewrite BufFacts.length_zero; exact Hd).
      lia. }
    rewrite parse_S, Hbusy.
    cbn [andb protocol.len_value protocol.len protocol.msg].
    rewrite BufEdges.subarray_neg by exact Hl.
    set (body := firstn (Z.to_nat (Buf.length d + l)) d).
    assert (Hbody : Buf.length body = Z.max 0 (Buf.length d + l)).
    { unfold body. rewrite BufEdges.length_firstn. lia. }
    replace (l - Buf.length body =? 0) with false
      by (symmetry; apply Z.eqb_neq; lia).
    assert (Hrest : Buf.length (Buf.subarray_from d (Buf.length body))
                    = Buf.length d - Buf.length body).
    { apply BufEdges.length_subarray_from. lia. }
    replace (Buf.length (Buf.subarray_from d (Buf.length body)) =? 0)
      with false by (symmetry; apply Z.eqb_neq; lia).
    apply IH; [lia |].
    intros Hnil. rewrite Hnil in Hrest. change (Buf.length []) with 0 in Hrest.
    lia.
Qed.

(** X9. A header that announces a total length below 16, with at least
    one byte after it in the chunk: whatever the size of the call stack,
    [parse] recurses until the stack is exhausted, and nothing is
    delivered. *)
Theorem short_length_overflows (stack : nat) (st : protocol.ParserState)
  (w : W) (hdr d : Buffer) (total : Z) :
  protocol.len_falsy st = true ->
  List.length hdr = 16%nat ->
  Buf.readUInt32LE (hdr ++ d) 0 = Some total ->
  total < 16 ->
  d <> [] ->
  exists st',
    protocol.parse onComplete stack st w (hdr ++ d)
    = Threw StackOverflow (st', w).
Proof.
  intros Hidle Hhdr Hread Htotal Hd.
  destruct stack as [| k]; [eexists; reflexivity |].
  rewrite (parse_header_nz k st w hdr d (total - 16));
    try assumption; [| rewrite Hread; f_equal; lia | lia].
  apply negative_length_overflows; [lia | exact Hd].
Qed.

(** X10. A complete frame whose payload [plist.parse] rejects: the
    handler throws, the callback does not run, and what follows the frame
    in the chunk is not parsed. *)
Theorem malformed_payload_aborts (k : nat) (st : protocol.ParserState)
  (w : W) (hdr p rest : Buffer) :
  protocol.len_falsy st = true ->
  List.length hdr = 16%nat ->
  p <> [] ->
  Buf.readUInt32LE (hdr ++ p ++ rest) 0 = Some (Buf.length p + 16) ->
  plist_parse (Buffer_toString p) = None ->
  protocol.parse onComplete (S k) st w (hdr ++ p ++ rest)
  = Threw PlistError (parsed (Buffer_toString p), w).
Proof.
  intros Hidle Hhdr Hp Hread Hbad.
  assert (Hpos : 0 < Buf.length p).
  { pose proof (BufFacts.length_nonneg p).
    assert (Buf.length p <> 0) by (rewrite BufFacts.length_zero; exact Hp).
    lia. }
  rewrite (parse_header_nz k st w hdr (p ++ rest) (Buf.length p));
    try assumption; [| lia | destruct p; [congruence | discriminate]].
  assert (Hbusy : protocol.len_falsy
                    {| protocol.len := Some (Buf.length p);
                       protocol.msg := EmptyString |} = false).
  { unfold protocol.len_falsy, JsNum.truthy. simpl.
    replace (Buf.length p =? 0) with false
      by (symmetry; apply Z.eqb_neq; lia).
    reflexivity. }
  rewrite parse_S, Hbusy.
  cbn [andb protocol.len_value protocol.len protocol.msg].
  rewrite BufFacts.subarray_prefix, Z.sub_diag.
  simpl String.append. rewrite Hbad. reflexivity.
Qed.

End ParserEdges.

(** A packed frame, cut after its 16th byte, is a header and a payload
    the parser can deliver. *)
Lemma well_framed_pack {codec : Codec} (obj : PlistValue) (frame : Buffer)
  (m : UsbMuxPlist) :
  protocol.pack obj = Some frame ->
  Buffer_from (plist_build obj) <> [] ->
  decode_frame frame = Some m ->
  well_framed (firstn 16 frame) (skipn 16 frame) m.
Proof.
  intros Hpack Hne Hdec.
  apply pack_framed in Hpack.
  unfold decode_frame in Hdec. rewrite (framed_payload _ _ Hpack) in Hdec.
  destruct Hpack as (hdr & -> & Hhdr & Hread).
  rewrite <- Hhdr at 1. rewrite firstn_app, Nat.sub_diag, firstn_all.
  simpl firstn. rewrite app_nil_r.
  rewrite <- Hhdr, skipn_app, skipn_all, Nat.sub_diag. simpl.
  repeat split; assumption.
Qed.

Section EdgeExamples.
#[local] Existing Instance TestCodec.codec.

Lemma pack_layout_witness :
  Buf.length (TestCodec.frame_of (TestCodec.result_obj 3)) = 44
  /\ Buf.readUInt32LE (TestCodec.frame_of (TestCodec.result_obj 3)) 0
     = Some 44.
Proof.
  destruct (@pack_layout TestCodec.codec (TestCodec.result_obj 3)
              (TestCodec.frame_of (TestCodec.result_obj 3)) eq_refl)
    as (Hlen & Hread & _).
  split; [exact Hlen | exact Hread].
Defined.

Lemma many_frames_in_one_chunk_witness :
  let f3 := TestCodec.frame_of (TestCodec.result_obj 3) in
  let f0 := TestCodec.frame_of (TestCodec.result_obj 0) in
  exists st,
    protocol.parse record_msg 2 protocol.makeParser []
      (frames_bytes [(firstn 16 f3, skipn 16 f3, Result 3);
                     (firstn 16 f0, skipn 16 f0, Result 0)])
    = Returned (st, [Result 3; Result 0]).
Proof.
  intros f3 f0.
  apply (@many_frames_in_one_chunk TestCodec.codec _ record_msg
           [(firstn 16 f3, skipn 16 f3, Result 3);
            (firstn 16 f0, skipn 16 f0, Result 0)]
           2%nat protocol.makeParser []).
  - discriminate.
  - apply Forall_cons; [| apply Forall_cons; [| apply Forall_nil]].
    + apply (well_framed_pack (TestCodec.result_obj 3));
        [reflexivity | vm_compute; discriminate | reflexivity].
    + apply (well_framed_pack (TestCodec.result_obj 0));
        [reflexivity | vm_compute; discriminate | reflexivity].
  - simpl. lia.
  - reflexivity.
Defined.

Lemma frames_beyond_stack_witness :
  let f3 := TestCodec.frame_of (TestCodec.result_obj 3) in
  let f0 := TestCodec.frame_of (TestCodec.result_obj 0) in
  exists st,
    protocol.parse record_msg 1 protocol.makeParser []
      (frames_bytes [(firstn 16 f3, skipn 16 f3, Result 3);
                     (firstn 16 f0, skipn 16 f0, Result 0)])
    = Threw StackOverflow (st, [Result 3]).
Proof.
  intros f3 f0.
  apply (@frames_beyond_stack TestCodec.codec _ record_msg
           [(firstn 16 f3, skipn 16 f3, Result 3);
            (firstn 16 f0, skipn 16 f0, Result 0)]
           1%nat protocol.makeParser []).
  - apply Forall_cons; [| apply Forall_cons; [| apply Forall_nil]].
    + apply (well_framed_pack (TestCodec.result_obj 3));
        [reflexivity | vm_compute; discriminate | reflexivity].
    + apply (well_framed_pack (TestCodec.result_obj 0));
        [reflexivity | vm_compute; discriminate | reflexivity].
  - simpl. lia.
  - reflexivity.
Defined.

Lemma parser_ready_for_next_witness :
  let f3 := TestCodec.frame_of (TestCodec.result_obj 3) in
  let f0 := TestCodec.frame_of (TestCodec.result_obj 0) in
  protocol.feed record_msg 1 protocol.makeParser []
    ([f3] ++ [firstn 16 f0; skipn 16 f0])
  = Returned (parsed (Buffer_toString (Buf.subarray_from f0 16)),
              [Result 3; Result 0]).
Proof.
  intros f3 f0.
  apply (@parser_ready_for_next TestCodec.codec _ record_msg [f3]
           protocol.makeParser
           (parsed (plist_build (TestCodec.result_obj 3))) [] [Result 3]
           (TestCodec.result_obj 0) f0 (Result 0)).
  - reflexivity.
  - reflexivity.
  - reflexivity.
  - vm_compute. discriminate.
  - reflexivity.
  - reflexivity.
  - vm_compute. discriminate.
  - repeat constructor. vm_compute. discriminate.
  - reflexivity.
  - lia.
Defined.

Lemma short_chunk_throws_witness :
  protocol.feed record_msg 1 protocol.makeParser []
    [[x2c; x00; x00]; [x00; x01]]
  = Threw RangeError (protocol.makeParser, []).
Proof.
  apply (@short_chunk_throws TestCodec.codec _ record_msg 0%nat
           protocol.makeParser [] [x2c; x00; x00] [[x00; x01]]).
  - reflexivity.
  - vm_compute. reflexivity.
Defined.

Lemma short_header_accepted_witness :
  protocol.parse record_msg 1 protocol.makeParser []
    (firstn 8 (TestCodec.frame_of (TestCodec.result_obj 3)))
  = Returned ({| protocol.len := Some (44 - 16);
                 protocol.msg := EmptyString |}, []).
Proof.
  apply (@short_header_accepted TestCodec.codec _ record_msg 0%nat
           protocol.makeParser []
           (firstn 8 (TestCodec.frame_of (TestCodec.result_obj 3))) 44).
  - reflexivity.
  - vm_compute. discriminate.
  - reflexivity.
Defined.

Lemma short_length_overflows_witness :
  exists st,
    protocol.parse record_msg 1000 protocol.makeParser []
      ([x0c; x00; x00; x00; x01; x00; x00; x00;
        x08; x00; x00; x00; x01; x00; x00; x00] ++ [x41; x42; x43; x44; x45])
    = Threw StackOverflow (st, []).
Proof.
  apply (@short_length_overflows TestCodec.codec _ record_msg 1000%nat
           protocol.makeParser []
           [x0c; x00; x00; x00; x01; x00; x00; x00;
            x08; x00; x00; x00; x01; x00; x00; x00]
           [x41; x42; x43; x44; x45] 12).
  - reflexivity.
  - reflexivity.
  - reflexivity.
  - lia.
  - discriminate.
Defined.

Lemma malformed_payload_aborts_witness :
  let f := TestCodec.frame_of (PString "junk") in
  protocol.parse record_msg 1 protocol.makeParser []
    (firstn 16 f ++ skipn 16 f
     ++ TestCodec.frame_of (TestCodec.result_obj 3))
  = Threw PlistError (parsed (Buffer_toString (skipn 16 f)), []).
Proof.
  intros f.
  apply (@malformed_payload_aborts TestCodec.codec _ record_msg 0%nat
           protocol.makeParser [] (firstn 16 f) (skipn 16 f)
           (TestCodec.frame_of (TestCodec.result_obj 3))).
  - reflexivity.
  - reflexivity.
  - vm_compute. discriminate.
  - reflexivity.
  - reflexivity.
Defined.

End EdgeExamples.

(* ------------------------------------------------------------------ *)
(** ** The listener *)

Section ListenerFacts.
Context {codec : Codec}.


End ListenerFacts.

Section DetachFacts.
Variable id : Z.

(** Visiting a key whose device has another handle changes nothing. *)
Lemma detach_loop_miss (ks : list string) :
  forall w,
    (forall k d, JsObject.get k (devices w) = Some d -> DeviceID d <> id) ->
    fold_left (detach_key id) ks w = w.
Proof.
  induction ks as [| k0 ks IH]; intros w Hall; [reflexivity |].
  simpl.
  assert (Hstep : detach_key id w k0 = w).
  { unfold detach_key.
    destruct (JsObject.get k0 (devices w)) as [d |] eqn:E; [| reflexivity].
    replace (DeviceID d =? id) with false; [reflexivity |].
    symmetry. apply Z.eqb_neq. now apply (Hall k0). }
  rewrite Hstep. now apply IH.
Qed.

(** What one visit does to the entry under any name. *)
Lemma detach_key_get (w : ListenerWorld) (key k : string) :
  JsObject.get k (devices (detach_key id w key))
  = match JsObject.get k (devices w) with
    | Some d =>
        if String.eqb k key && (DeviceID d =? id) then None else Some d
    | None => None
    end.
Proof.
  destruct (String.eqb k key) eqn:Ek.
  - apply String.eqb_eq in Ek. subst key. unfold detach_key.
    destruct (JsObject.get k (devices w)) as [d |] eqn:E; [| now rewrite E].
    destruct (DeviceID d =? id); simpl.
    + apply JsObjectFacts.get_delete_same.
    + exact E.
  - apply String.eqb_neq in Ek.
    rewrite detach_key_other by exact Ek.
    now destruct (JsObject.get k (devices w)).
Qed.

(** What the loop does to the entry under any name of the snapshot. *)
Lemma detach_loop_get (k : string) (ks : list string) :
  forall w,
    JsObject.get k (devices (fold_left (detach_key id) ks w))
    = match JsObject.get k (devices w) with
      | Some d =>
          if existsb (String.eqb k) ks && (DeviceID d =? id)
          then None else Some d
      | None => None
      end.
Proof.
  induction ks as [| k0 ks IH]; intros w; simpl.
  - now destruct (JsObject.get k (devices w)).
  - rewrite IH, detach_key_get.
    destruct (JsObject.get k (devices w)) as [d |]; [| reflexivity].
    destruct (String.eqb k k0); destruct (DeviceID d =? id) eqn:E;
      destruct (existsb (String.eqb k) ks); simpl; rewrite ?E; reflexivity.
Qed.

End DetachFacts.

(** X12. A Detached notification whose session handle no device of the
    registry has is ignored: the registry is unchanged and nothing is
    emitted. *)
Theorem detached_unknown_ignored (conn : Socket) (n id : Z)
  (w : ListenerWorld) :
  (forall k d, JsObject.get k (devices w) = Some d -> DeviceID d <> id) ->
  listener_onMsgComplete conn (Detached n id) w = w.
Proof.
  intros Hnone. unfold listener_onMsgComplete. simpl.
  now apply detach_loop_miss.
Qed.

Lemma detached_unknown_ignored_witness :
  let w := {| devices := [("ABC"%string, TestCodec.usb 7 "ABC")];
              ltrace := [] |} in
  listener_onMsgComplete 0%nat (Detached 0 8) w = w.
Proof.
  intros w.
  apply (detached_unknown_ignored 0%nat 0 8 w).
  intros k d Hget. simpl in Hget.
  destruct (String.eqb k "ABC"); [| discriminate].
  injection Hget as <-. simpl. lia.
Defined.

(** X13. What a Detached notification does to the registry: the entries
    whose device has the session handle are removed, every one of them,
    and the other entries are as they were. *)
Theorem detached_removes_handle (conn : Socket) (n id : Z)
  (w : ListenerWorld) (k : string) :
  JsObject.get k (devices (listener_onMsgComplete conn (Detached n id) w))
  = match JsObject.get k (devices w) with
    | Some d => if DeviceID d =? id then None else Some d
    | None => None
    end.
Proof.
  unfold listener_onMsgComplete. simpl.
  rewrite detach_loop_get.
  destruct (JsObject.get k (devices w)) as [d |] eqn:E; [| reflexivity].
  replace (existsb (String.eqb k) (JsObject.keys (devices w))) with true;
    [reflexivity |].
  symmetry. apply existsb_exists. exists k.
  split; [| apply String.eqb_refl].
  apply JsObjectFacts.in_keys. eapply JsObjectFacts.get_some_in, E.
Qed.



(** The handler keeps every entry under its own serial number. *)
Lemma keyed_set (D : Device) (r : Registry) :
  keyed_by_serial r ->
  keyed_by_serial (JsObject.set (SerialNumber D) D r).
Proof.
  unfold keyed_by_serial.
  induction r as [| [k d] r IH]; simpl; intros Hr.
  - repeat constructor.
  - inversion Hr as [| ? ? Hk Hr']; subst.
    destruct (String.eqb (SerialNumber D) k).
    + constructor; [reflexivity | exact Hr'].
    + constructor; [exact Hk | now apply IH].
Qed.

Lemma keyed_delete (k : string) (r : Registry) :
  keyed_by_serial r -> keyed_by_serial (JsObject.delete k r).
Proof.
  unfold keyed_by_serial, JsObject.delete. intros Hr.
  rewrite Forall_forall in *. intros x Hx.
  apply filter_In in Hx as [Hx _]. now apply Hr.
Qed.

Lemma keyed_get (k : string) (d : Device) (r : Registry) :
  keyed_by_serial r -> JsObject.get k r = Some d -> SerialNumber d = k.
Proof.
  unfold keyed_by_serial.
  induction r as [| [k0 d0] r IH]; simpl; intros Hr Hget; [discriminate |].
  inversion Hr as [| ? ? Hk Hr']; subst. simpl in Hk.
  destruct (String.eqb k k0) eqn:E.
  - apply String.eqb_eq in E. injection Hget as <-. congruence.
  - now apply IH.
Qed.

Lemma keyed_detach_key (id : Z) (w : ListenerWorld) (key : string) :
  keyed_by_serial (devices w) ->
  keyed_by_serial (devices (detach_key id w key)).
Proof.
  intros Hw. unfold detach_key.
  destruct (JsObject.get key (devices w)) as [d |]; [| exact Hw].
  destruct (DeviceID d =? id); [| exact Hw].
  simpl. now apply keyed_delete.
Qed.

Lemma keyed_detach_loop (id : Z) (ks : list string) :
  forall w,
    keyed_by_serial (devices w) ->
    keyed_by_serial (devices (fold_left (detach_key id) ks w)).
Proof.
  induction ks as [| k ks IH]; intros w Hw; simpl; [exact Hw |].
  apply IH. now apply keyed_detach_key.
Qed.

Lemma keyed_handler (conn : Socket) (m : UsbMuxPlist) (w : ListenerWorld) :
  keyed_by_serial (devices w) ->
  keyed_by_serial (devices (listener_onMsgComplete conn m w)).
Proof.
  intros Hw. unfold listener_onMsgComplete.
  destruct m as [n | n props | n id]; simpl.
  - destruct (n =? 0); exact Hw.
  - now apply keyed_set.
  - now apply keyed_detach_loop.
Qed.

(** X15. In a registry that the listener built from the empty one,
    whatever the messages were, every device is stored under its own
    serial number. *)
Theorem registry_keyed_by_serial (conn : Socket) (ms : list UsbMuxPlist)
  (k : string) (d : Device) :
  JsObject.get k
    (devices (listener_run conn ms {| devices := devices0; ltrace := [] |}))
  = Some d ->
  SerialNumber d = k.
Proof.
  apply keyed_get.
  assert (Hgen : forall w, keyed_by_serial (devices w) ->
                           keyed_by_serial (devices (listener_run conn ms w))).
  { unfold listener_run.
    induction ms as [| m ms IH]; intros w Hw; simpl; [exact Hw |].
    apply IH. now apply keyed_handler. }
  apply Hgen. constructor.
Qed.

Lemma registry_keyed_by_serial_witness :
  let ms := [Attached 0 (TestCodec.usb 7 "ABC"); Result 0;
             Attached 0 (TestCodec.usb 8 "XYZ");
             Attached 0 (TestCodec.usb 9 "ABC"); Detached 0 8] in
  JsObject.get "ABC"
    (devices (listener_run 0%nat ms {| devices := devices0; ltrace := [] |}))
  = Some (TestCodec.usb 9 "ABC")
  /\ SerialNumber (TestCodec.usb 9 "ABC") = "ABC"%string.
Proof.
  intros ms.
  split; [reflexivity |].
  apply (registry_keyed_by_serial 0%nat ms "ABC" (TestCodec.usb 9 "ABC")).
  reflexivity.
Defined.

(** ** Following the events *)






Section ListenerExamples.
#[local] Existing Instance TestCodec.codec.


End ListenerExamples.

(* ------------------------------------------------------------------ *)
(** ** The tunnel connector at its edges *)

Section ConnectEdges.
Context {codec : Codec}.

(** X17. Any first message other than a Result with code zero fails the
    tunnel, an Attached or a Detached one too: the promise is rejected
    with a [UsbmuxdError] made from the message's [Number], the
    connection is ended, and [parse] stays registered for "data". *)
Theorem connect_fails_on_other (fresh : Socket) (deviceID devicePort : Z)
  (req frame payload : Buffer) (m : UsbMuxPlist) (stack : nat) :
  protocol.connect deviceID devicePort = Some req ->
  framed frame payload ->
  payload <> [] ->
  decode_frame frame = Some m ->
  m <> Result 0 ->
  (1 <= stack)%nat ->
  exists t,
    tunnel_run stack (connect fresh deviceID devicePort)
      [NextTick; Data frame] = Returned t
    /\ world t
       = {| parsing := true;
            ctrace := [SocketWrite fresh req;
                       Settle (Rejected
                         (UsbmuxdError "Tunnel failed" (msg_Number m)));
                       SocketEnd fresh] |}.
Proof.
  intros Hreq Hframed Hne Hdec Hm Hstack.
  unfold decode_frame in Hdec.
  rewrite (framed_payload _ _ Hframed) in Hdec.
  destruct Hframed as (hdr & -> & Hhdr & Hread).
  destruct stack as [| k]; [lia |].
  set (w0 := {| parsing := true; ctrace := [SocketWrite fresh req] |}).
  assert (Hparse :
            protocol.parse (connect_onMsgComplete fresh) (S k)
              protocol.makeParser w0 (hdr ++ payload)
            = Returned (parsed (Buffer_toString payload),
                        connect_onMsgComplete fresh m w0)).
  { replace (hdr ++ payload) with (hdr ++ payload ++ [])
      by now rewrite app_nil_r.
    rewrite (parse_frame _ k _ _ hdr payload [] m);
      try assumption; try reflexivity.
    apply Hread. }
  exists {| conn := fresh; request := Some req;
            pstate := parsed (Buffer_toString payload);
            world := connect_onMsgComplete fresh m w0 |}.
  split.
  { unfold connect. rewrite Hreq.
    cbn [tunnel_run tunnel_step request conn pstate world parsing ctrace app].
    fold w0. rewrite Hparse. reflexivity. }
  cbn [world].
  destruct m as [[| p | p] | n props | n id]; try reflexivity.
  congruence.
Qed.

(** X18. Bytes that arrive in the same chunk as the Result are still
    handed to the parser.  When one to three bytes follow a Result with
    code zero, the promise is resolved with the connection and then the
    "data" handler throws a RangeError. *)
Theorem connect_leftover_throws (fresh : Socket) (deviceID devicePort : Z)
  (req frame payload extra : Buffer) (stack : nat) :
  protocol.connect deviceID devicePort = Some req ->
  framed frame payload ->
  payload <> [] ->
  decode_frame frame = Some (Result 0) ->
  extra <> [] ->
  Buf.length extra < 4 ->
  (2 <= stack)%nat ->
  exists t,
    tunnel_run stack (connect fresh deviceID devicePort)
      [NextTick; Data (frame ++ extra)] = Threw RangeError t
    /\ world t
       = {| parsing := false;
            ctrace := [SocketWrite fresh req; RemoveDataListener fresh;
                       Settle (ResolvedSocket fresh)] |}.
Proof.
  intros Hreq Hframed Hne Hdec Hextra Hshort Hstack.
  unfold decode_frame in Hdec.
  rewrite (framed_payload _ _ Hframed) in Hdec.
  destruct Hframed as (hdr & -> & Hhdr & Hread).
  destruct stack as [| [| k]]; [lia | lia |].
  set (w0 := {| parsing := true; ctrace := [SocketWrite fresh req] |}).
  assert (Hparse :
            protocol.parse (connect_onMsgComplete fresh) (S (S k))
              protocol.makeParser w0 ((hdr ++ payload) ++ extra)
            = Threw RangeError
                (parsed (Buffer_toString payload),
                 connect_onMsgComplete fresh (Result 0) w0)).
  { rewrite <- app_assoc.
    rewrite (parse_frame _ (S k) _ _ hdr payload extra (Result 0));
      try assumption; try reflexivity; [| apply Hread].
    destruct extra as [| b extra']; [congruence |].
    now apply parse_short_chunk. }
  exists {| conn := fresh; request := Some req;
            pstate := parsed (Buffer_toString payload);
            world := connect_onMsgComplete fresh (Result 0) w0 |}.
  split; [| reflexivity].
  unfold connect. rewrite Hreq.
  cbn [tunnel_run tunnel_step request conn pstate world parsing ctrace app].
  fold w0. rewrite Hparse. reflexivity.
Qed.

End ConnectEdges.

Section ConnectEdgeExamples.
#[local] Existing Instance TestCodec.codec.

Lemma connect_fails_on_other_witness :
  exists t,
    tunnel_run 1 (connect 4%nat 7 22)
      [NextTick;
       Data (TestCodec.frame_of
               (PDict [("MessageType", PString "Detached");
                       ("Number", PInteger 0);
                       ("DeviceID", PInteger 7)]%string))]
    = Returned t
    /\ settled (ctrace (world t))
       = Some (Rejected (UsbmuxdError "Tunnel failed" 0)).
Proof.
  destruct (@connect_fails_on_other TestCodec.codec 4%nat 7 22
              (TestCodec.frame_of (protocol.connect_payload 7 22))
              (TestCodec.frame_of
                 (PDict [("MessageType", PString "Detached");
                         ("Number", PInteger 0);
                         ("DeviceID", PInteger 7)]%string))
              (Buffer_from
                 (plist_build
                    (PDict [("MessageType", PString "Detached");
                            ("Number", PInteger 0);
                            ("DeviceID", PInteger 7)]%string)))
              (Detached 0 7) 1%nat)
    as (t & Hrun & Hworld).
  - reflexivity.
  - apply pack_framed. reflexivity.
  - vm_compute. discriminate.
  - reflexivity.
  - discriminate.
  - lia.
  - exists t. split; [exact Hrun |]. rewrite Hworld. reflexivity.
Defined.

Lemma connect_leftover_throws_witness :
  exists t,
    tunnel_run 2 (connect 4%nat 7 22)
      [NextTick;
       Data (TestCodec.frame_of (TestCodec.result_obj 0) ++ [x53; x53; x48])]
    = Threw RangeError t
    /\ settled (ctrace (world t)) = Some (ResolvedSocket 4%nat).
Proof.
  destruct (@connect_leftover_throws TestCodec.codec 4%nat 7 22
              (TestCodec.frame_of (protocol.connect_payload 7 22))
              (TestCodec.frame_of (TestCodec.result_obj 0))
              (Buffer_from (plist_build (TestCodec.result_obj 0)))
              [x53; x53; x48] 2%nat)
    as (t & Hrun & Hworld).
  - reflexivity.
  - apply pack_framed. reflexivity.
  - vm_compute. discriminate.
  - reflexivity.
  - discriminate.
  - vm_compute. reflexivity.
  - lia.
  - exists t. split; [exact Hrun |]. rewrite Hworld. reflexivity.
Defined.

End ConnectEdgeExamples.

(* ------------------------------------------------------------------ *)
(** ** The relay at its edges *)







(** ** The relay and its listener *)

Lemma quiet_app (a b : Trace) : quiet (a ++ b) = quiet a && quiet b.
Proof. unfold quiet. apply forallb_app. Qed.

Lemma ready_once_app (a b : Trace) :
  forallb (fun e => negb (is_event "ready" e)) a = true ->
  ready_once (a ++ b) = ready_once b.
Proof.
  induction a as [| e a IH]; intros Ha; [reflexivity |].
  simpl in Ha. apply andb_prop in Ha as [He Ha].
  simpl. apply negb_true_iff in He. rewrite He. now apply IH.
Qed.

(** What [readyCheck] emits, by whether the notification satisfies the
    pin. *)
Lemma readyCheck_cases (r : Relay) (seen : Registry) (u : string) :
  readyCheck r seen u
  = if satisfies_pin r u
    then [Emit "ready" (DUdid u) seen; ClearTimeout]
    else [].
Proof.
  unfold readyCheck, satisfies_pin.
  now destruct (given (_udid r) && negb (String.eqb (pinned_name r) u)).
Qed.

Lemma watchdog_no_ready (r : Relay) (seen : Registry) :
  forallb (fun e => negb (is_event "ready" e)) (watchdog r seen) = true.
Proof.
  unfold watchdog.
  destruct (negb (given (_udid r))
            && (List.length (JsObject.keys seen) =? 0)%nat);
    destruct (given (_udid r) && negb (has_device seen (pinned_name r)));
    reflexivity.
Qed.

(** Once [readyCheck] is gone and the timer is no longer armed, the relay
    emits neither "ready" nor "warning". *)
Lemma relay_quiet_after_ready (es : list RelayEvent) :
  forall s,
    rl_ready_check s = false ->
    rl_timer s <> Armed ->
    quiet (snd (relay_listener_run s es)) = true.
Proof.
  induction es as [| e es IH]; intros s Hready Htimer; [reflexivity |].
  simpl.
  destruct (relay_listener_step s e) as [s1 t1] eqn:Hstep.
  destruct (relay_listener_run s1 es) as [s2 t2] eqn:Hrun.
  simpl. rewrite quiet_app.
  assert (Hsame : s1 = s /\ quiet t1 = true).
  { unfold relay_listener_step in Hstep.
    destruct e as [u seen | u seen | err seen | seen].
    - rewrite Hready in Hstep. injection Hstep as <- <-. now split.
    - injection Hstep as <- <-. now split.
    - injection Hstep as <- <-. now split.
    - destruct (rl_timer s); [congruence | |];
        injection Hstep as <- <-; now split. }
  destruct Hsame as [-> Hq]. rewrite Hq. simpl.
  specialize (IH s Hready Htimer). now rewrite Hrun in IH.
Qed.

(** X22. Whatever reaches a relay from its listener and its timer, in
    whatever order, the relay emits "ready" at most once, and after
    "ready" it never emits "warning". *)
Theorem relay_ready_once (r : Relay) (es : list RelayEvent) :
  ready_once (snd (relay_listener_run (relay_listening r) es)) = true.
Proof.
  assert (Hgen : forall s,
             rl_ready_check s = true ->
             ready_once (snd (relay_listener_run s es)) = true).
  { induction es as [| e es IH]; intros s Hready; [reflexivity |].
    simpl.
    destruct (relay_listener_step s e) as [s1 t1] eqn:Hstep.
    destruct (relay_listener_run s1 es) as [s2 t2] eqn:Hrun.
    simpl.
    unfold relay_listener_step in Hstep.
    destruct e as [u seen | u seen | err seen | seen].
    - rewrite Hready, readyCheck_cases in Hstep.
      destruct (satisfies_pin (rl_relay s) u).
      + injection Hstep as <- <-. simpl.
        pose proof (relay_quiet_after_ready es
                      {| rl_relay := rl_relay s; rl_ready_check := false;
                         rl_timer := match rl_timer s with
                                     | Armed => Cleared
                                     | x => x
                                     end |} eq_refl) as Hq.
        rewrite Hrun in Hq. apply Hq.
        simpl. destruct (rl_timer s); discriminate.
      + injection Hstep as <- <-. simpl.
        specialize (IH s Hready). now rewrite Hrun in IH.
    - injection Hstep as <- <-. simpl.
      specialize (IH s Hready). now rewrite Hrun in IH.
    - injection Hstep as <- <-. simpl.
      specialize (IH s Hready). now rewrite Hrun in IH.
    - destruct (rl_timer s) eqn:Ht.
      + injection Hstep as <- <-.
        rewrite ready_once_app by apply watchdog_no_ready.
        specialize (IH {| rl_relay := rl_relay s;
                          rl_ready_check := rl_ready_check s;
                          rl_timer := Fired |} Hready).
        now rewrite Hrun in IH.
      + injection Hstep as <- <-. simpl.
        specialize (IH s Hready). now rewrite Hrun in IH.
      + injection Hstep as <- <-. simpl.
        specialize (IH s Hready). now rewrite Hrun in IH. }
  now apply Hgen.
Qed.

Lemma watchdog_not_passed (r : Relay) (seen : Registry) :
  filter is_passed (watchdog r seen) = [].
Proof.
  unfold watchdog.
  destruct (negb (given (_udid r))
            && (List.length (JsObject.keys seen) =? 0)%nat);
    destruct (given (_udid r) && negb (has_device seen (pinned_name r)));
    reflexivity.
Qed.

(** X23. The relay passes every "attached", "detached" and "error" of its
    listener through, once each and in the order they came, whether or
    not it is ready and whether or not the watchdog has fired. *)
Theorem relay_passes_through (es : list RelayEvent) :
  forall s,
    filter is_passed (snd (relay_listener_run s es))
    = flat_map passed_through es.
Proof.
  induction es as [| e es IH]; intros s; [reflexivity |].
  simpl.
  destruct (relay_listener_step s e) as [s1 t1] eqn:Hstep.
  destruct (relay_listener_run s1 es) as [s2 t2] eqn:Hrun.
  simpl. rewrite filter_app.
  specialize (IH s1). rewrite Hrun in IH. simpl in IH. rewrite IH.
  f_equal.
  unfold relay_listener_step in Hstep.
  destruct e as [u seen | u seen | err seen | seen].
  - rewrite readyCheck_cases in Hstep.
    destruct (rl_ready_check s); [destruct (satisfies_pin (rl_relay s) u) |];
      injection Hstep as <- <-; reflexivity.
  - injection Hstep as <- <-. reflexivity.
  - injection Hstep as <- <-. reflexivity.
  - destruct (rl_timer s); injection Hstep as <- <-;
      [apply watchdog_not_passed | reflexivity | reflexivity].
Qed.

(* ------------------------------------------------------------------ *)
(** ** The device finder and [getTunnel] *)

(** X24. When the first notification [findDevice] does not pass by is for
    a device the registry holds, the listener is ended, the timer is
    cleared and the promise is resolved with the session handle the
    registry has for that device; the timer expiring afterwards changes
    nothing. *)
Theorem findDevice_finds (listener : Socket) (opts : option RelayOpts)
  (pre : list FinderEvent) (u : string) (seen : Registry) (d : Device) :
  forallb (ignored (opts_or_empty opts)) pre = true ->
  passes_by (opts_or_empty opts) u = false ->
  JsObject.get u seen = Some d ->
  exists f,
    finder_run (findDevice listener opts) (pre ++ [AttachedEvent u seen])
    = Returned f
    /\ f_trace f
       = [SetTimeout (JsNum.or_default (timeout (opts_or_empty opts)) 1000);
          SocketEnd listener; ClearTimeout;
          Settle (ResolvedNumber (DeviceID d))]
    /\ settled (f_trace f) = Some (ResolvedNumber (DeviceID d))
    /\ finder_run f [TimerExpires] = Returned f.
Proof.
  intros Hpre Hpass Hget.
  rewrite finder_run_ignored by exact Hpre.
  cbn [finder_run finder_step findDevice f_opts].
  rewrite Hpass, Hget.
  eexists. split; [reflexivity |].
  repeat split.
Qed.

Lemma findDevice_finds_witness :
  exists f,
    finder_run
      (findDevice 3%nat
         (Some {| timeout := Some 50; udid := Some "ABC"%string |}))
      [AttachedEvent "XYZ" [("XYZ"%string, TestCodec.usb 7 "XYZ")];
       AttachedEvent "ABC" [("XYZ"%string, TestCodec.usb 7 "XYZ");
                            ("ABC"%string, TestCodec.usb 8 "ABC")]]
    = Returned f
    /\ settled (f_trace f) = Some (ResolvedNumber 8).
Proof.
  destruct (findDevice_finds 3%nat
              (Some {| timeout := Some 50; udid := Some "ABC"%string |})
              [AttachedEvent "XYZ" [("XYZ"%string, TestCodec.usb 7 "XYZ")]]
              "ABC"
              [("XYZ"%string, TestCodec.usb 7 "XYZ");
               ("ABC"%string, TestCodec.usb 8 "ABC")]
              (TestCodec.usb 8 "ABC") eq_refl eq_refl eq_refl)
    as (f & Hrun & _ & Hsettled & _).
  exists f. split; [exact Hrun | exact Hsettled].
Defined.


